(** * BLEDeviceManager: a shallow embedding of the React Native component

    The component of [src/Page/home] keeps its data in [useState] cells and
    [useRef] boxes and reacts to user presses, adapter callbacks and timers.
    Code runs on the JavaScript thread without interruption up to the next
    [await], so a stretch of code between two awaits is a function from the
    component's store to the store.  The adapter (react-native-ble-plx) and
    the JavaScript host are black boxes: what an adapter call returns is an
    argument of the handler that makes the call, and the host's pending
    timers and registered listeners are part of the store.

    [disconnect] is given by its two stretches, before and after its await,
    so that what runs in between can be stated.  [connectToDevice] is given
    with the answers of the adapter taken one after the other; the stretches
    it is made of are [beginConnect], [connectedStore],
    [setupConnectionMonitoring], [connectFailed] and
    [subscribeToCharacteristics].  [run] takes every event whole;
    [interleaved] takes the stretches in any order.

    A function declared in the component body is created anew at every
    render and closes over the [useState] values of that render.  Handlers
    that read such a value therefore take the render they belong to as an
    argument ([Render]); refs and functional [setState] updaters read the
    store itself. *)

From Stdlib Require Import ZArith QArith Qround Qpower Lqa String Ascii.
From stdpp Require Import base option list strings gmap sorting.

Open Scope string_scope.
Open Scope list_scope.
Open Scope nat_scope.

(** ** Values of the source *)

(** [type ConnectionStatus], lines 36-43. *)
Inductive ConnectionStatus :=
| Disconnected        (* 'Disconnected' *)
| Connecting          (* 'Connecting...' *)
| Connected           (* 'Connected' *)
| ConnectionFailed    (* 'Connection Failed' *)
| Reconnecting        (* 'Reconnecting...' *)
| BluetoothOff        (* 'Bluetooth Off' *)
| CheckingBluetooth.  (* 'Checking Bluetooth...' *)

(** [State] of react-native-ble-plx: the power state of the radio. *)
Inductive State :=
| Unknown | Resetting | Unsupported | Unauthorized | PoweredOff | PoweredOn.

Definition isPoweredOn (st : State) : bool :=
  match st with PoweredOn => true | _ => false end.

(** The fields of [Device] that the component reads. *)
Record Device := mkDevice {
  device_id : string;
  device_name : option string;
  device_rssi : option Z;
  device_isConnectable : option bool;
  device_serviceUUIDs : option (list string)
}.

(** [interface NotificationData], lines 28-34.  [notif_id] is a JavaScript
    number: a double, kept as the rational it stands for. *)
Record NotificationData := mkNotification {
  notif_id : Q;
  serviceUUID : string;
  characteristicUUID : string;
  notif_value : string;
  timestamp : string
}.

(** An [Error] as the handlers see it: its [message], if it has one. *)
Record JsError := mkError { message : option string }.

(** The outcome of an awaited adapter call. *)
Inductive Fallible (A : Type) :=
| Resolved (a : A)
| Rejected (err : JsError).
Arguments Resolved {A} a.
Arguments Rejected {A} err.

(** The [useState] values a function of the component body closes over. *)
Record Render := mkRender {
  r_isScanning : bool;
  r_isConnected : bool;
  r_connectedDevice : option Device;
  r_autoReconnect : bool;
  r_permissionsGranted : bool
}.

(** What the host holds for a pending [setTimeout]. *)
Inductive TimerCallback :=
| ScanTimeout                                       (* () => stopScan() *)
| ReconnectTimeout (env : Render) (device : Device). (* () => connectToDevice(device) *)

Record Timer := mkTimer { delay : Z; callback : TimerCallback }.

(** What the adapter holds for a registered listener. *)
Inductive Listener :=
| StateListener (env : Render)                       (* onStateChange *)
| DisconnectListener (env : Render) (device : Device) (* device.onDisconnected *)
| CharacteristicMonitor (service characteristic : string). (* characteristic.monitor *)

(** ** The store *)

Record Component := mkComponent {
  (* useState *)
  isScanning : bool;
  devices : list Device;
  connectedDevice : option Device;
  isConnected : bool;
  notifications : list NotificationData;
  autoReconnect : bool;
  connectionStatus : ConnectionStatus;
  bluetoothState : State;
  permissionsGranted : bool;
  (* useRef; [None] is null, a [Subscription] or timer is its handle *)
  bleManagerRef : bool;
  reconnectTimeoutRef : option nat;
  scanTimeoutRef : option nat;
  subscriptionsRef : list nat;
  stateSubscriptionRef : option nat;
  (* host: pending timers, live listeners in registration order, the
     adapter's scan, and every status passed to setConnectionStatus
     (latest first) *)
  timers : gmap nat Timer;
  nextTimer : nat;
  listeners : list (nat * Listener);
  nextHandle : nat;
  deviceScan : bool;
  statusLog : list ConnectionStatus
}.

Definition initialComponent : Component :=
  {| isScanning := false; devices := []; connectedDevice := None;
     isConnected := false; notifications := []; autoReconnect := true;
     connectionStatus := CheckingBluetooth; bluetoothState := Unknown;
     permissionsGranted := false;
     bleManagerRef := false; reconnectTimeoutRef := None;
     scanTimeoutRef := None; subscriptionsRef := [];
     stateSubscriptionRef := None;
     timers := ∅; nextTimer := 1; listeners := []; nextHandle := 1;
     deviceScan := false; statusLog := [] |}.

(** The render that the store is shown with. *)
Definition renderOf (s : Component) : Render :=
  {| r_isScanning := isScanning s; r_isConnected := isConnected s;
     r_connectedDevice := connectedDevice s;
     r_autoReconnect := autoReconnect s;
     r_permissionsGranted := permissionsGranted s |}.

(** *** Setters *)

Definition setIsScanning (b : bool) (s : Component) : Component :=
  mkComponent b (devices s) (connectedDevice s) (isConnected s)
    (notifications s) (autoReconnect s) (connectionStatus s)
    (bluetoothState s) (permissionsGranted s) (bleManagerRef s)
    (reconnectTimeoutRef s) (scanTimeoutRef s) (subscriptionsRef s)
    (stateSubscriptionRef s) (timers s) (nextTimer s) (listeners s)
    (nextHandle s) (deviceScan s) (statusLog s).

Definition setDevices (f : list Device → list Device) (s : Component)
  : Component :=
  mkComponent (isScanning s) (f (devices s)) (connectedDevice s)
    (isConnected s) (notifications s) (autoReconnect s) (connectionStatus s)
    (bluetoothState s) (permissionsGranted s) (bleManagerRef s)
    (reconnectTimeoutRef s) (scanTimeoutRef s) (subscriptionsRef s)
    (stateSubscriptionRef s) (timers s) (nextTimer s) (listeners s)
    (nextHandle s) (deviceScan s) (statusLog s).

Definition setConnectedDevice (d : option Device) (s : Component)
  : Component :=
  mkComponent (isScanning s) (devices s) d (isConnected s)
    (notifications s) (autoReconnect s) (connectionStatus s)
    (bluetoothState s) (permissionsGranted s) (bleManagerRef s)
    (reconnectTimeoutRef s) (scanTimeoutRef s) (subscriptionsRef s)
    (stateSubscriptionRef s) (timers s) (nextTimer s) (listeners s)
    (nextHandle s) (deviceScan s) (statusLog s).

Definition setIsConnected (b : bool) (s : Component) : Component :=
  mkComponent (isScanning s) (devices s) (connectedDevice s) b
    (notifications s) (autoReconnect s) (connectionStatus s)
    (bluetoothState s) (permissionsGranted s) (bleManagerRef s)
    (reconnectTimeoutRef s) (scanTimeoutRef s) (subscriptionsRef s)
    (stateSubscriptionRef s) (timers s) (nextTimer s) (listeners s)
    (nextHandle s) (deviceScan s) (statusLog s).

Definition setNotifications
  (f : list NotificationData → list NotificationData) (s : Component)
  : Component :=
  mkComponent (isScanning s) (devices s) (connectedDevice s) (isConnected s)
    (f (notifications s)) (autoReconnect s) (connectionStatus s)
    (bluetoothState s) (permissionsGranted s) (bleManagerRef s)
    (reconnectTimeoutRef s) (scanTimeoutRef s) (subscriptionsRef s)
    (stateSubscriptionRef s) (timers s) (nextTimer s) (listeners s)
    (nextHandle s) (deviceScan s) (statusLog s).

Definition setAutoReconnect (b : bool) (s : Component) : Component :=
  mkComponent (isScanning s) (devices s) (connectedDevice s) (isConnected s)
    (notifications s) b (connectionStatus s)
    (bluetoothState s) (permissionsGranted s) (bleManagerRef s)
    (reconnectTimeoutRef s) (scanTimeoutRef s) (subscriptionsRef s)
    (stateSubscriptionRef s) (timers s) (nextTimer s) (listeners s)
    (nextHandle s) (deviceScan s) (statusLog s).

Definition setConnectionStatus (c : ConnectionStatus) (s : Component)
  : Component :=
  mkComponent (isScanning s) (devices s) (connectedDevice s) (isConnected s)
    (notifications s) (autoReconnect s) c
    (bluetoothState s) (permissionsGranted s) (bleManagerRef s)
    (reconnectTimeoutRef s) (scanTimeoutRef s) (subscriptionsRef s)
    (stateSubscriptionRef s) (timers s) (nextTimer s) (listeners s)
    (nextHandle s) (deviceScan s) (c :: statusLog s).

Definition setBluetoothState (st : State) (s : Component) : Component :=
  mkComponent (isScanning s) (devices s) (connectedDevice s) (isConnected s)
    (notifications s) (autoReconnect s) (connectionStatus s)
    st (permissionsGranted s) (bleManagerRef s)
    (reconnectTimeoutRef s) (scanTimeoutRef s) (subscriptionsRef s)
    (stateSubscriptionRef s) (timers s) (nextTimer s) (listeners s)
    (nextHandle s) (deviceScan s) (statusLog s).

Definition setPermissionsGranted (b : bool) (s : Component) : Component :=
  mkComponent (isScanning s) (devices s) (connectedDevice s) (isConnected s)
    (notifications s) (autoReconnect s) (connectionStatus s)
    (bluetoothState s) b (bleManagerRef s)
    (reconnectTimeoutRef s) (scanTimeoutRef s) (subscriptionsRef s)
    (stateSubscriptionRef s) (timers s) (nextTimer s) (listeners s)
    (nextHandle s) (deviceScan s) (statusLog s).

Definition setBleManagerRef (b : bool) (s : Component) : Component :=
  mkComponent (isScanning s) (devices s) (connectedDevice s) (isConnected s)
    (notifications s) (autoReconnect s) (connectionStatus s)
    (bluetoothState s) (permissionsGranted s) b
    (reconnectTimeoutRef s) (scanTimeoutRef s) (subscriptionsRef s)
    (stateSubscriptionRef s) (timers s) (nextTimer s) (listeners s)
    (nextHandle s) (deviceScan s) (statusLog s).

Definition setReconnectTimeoutRef (t : option nat) (s : Component)
  : Component :=
  mkComponent (isScanning s) (devices s) (connectedDevice s) (isConnected s)
    (notifications s) (autoReconnect s) (connectionStatus s)
    (bluetoothState s) (permissionsGranted s) (bleManagerRef s)
    t (scanTimeoutRef s) (subscriptionsRef s)
    (stateSubscriptionRef s) (timers s) (nextTimer s) (listeners s)
    (nextHandle s) (deviceScan s) (statusLog s).

Definition setScanTimeoutRef (t : option nat) (s : Component) : Component :=
  mkComponent (isScanning s) (devices s) (connectedDevice s) (isConnected s)
    (notifications s) (autoReconnect s) (connectionStatus s)
    (bluetoothState s) (permissionsGranted s) (bleManagerRef s)
    (reconnectTimeoutRef s) t (subscriptionsRef s)
    (stateSubscriptionRef s) (timers s) (nextTimer s) (listeners s)
    (nextHandle s) (deviceScan s) (statusLog s).

Definition setSubscriptionsRef (l : list nat) (s : Component) : Component :=
  mkComponent (isScanning s) (devices s) (connectedDevice s) (isConnected s)
    (notifications s) (autoReconnect s) (connectionStatus s)
    (bluetoothState s) (permissionsGranted s) (bleManagerRef s)
    (reconnectTimeoutRef s) (scanTimeoutRef s) l
    (stateSubscriptionRef s) (timers s) (nextTimer s) (listeners s)
    (nextHandle s) (deviceScan s) (statusLog s).

Definition setStateSubscriptionRef (h : option nat) (s : Component)
  : Component :=
  mkComponent (isScanning s) (devices s) (connectedDevice s) (isConnected s)
    (notifications s) (autoReconnect s) (connectionStatus s)
    (bluetoothState s) (permissionsGranted s) (bleManagerRef s)
    (reconnectTimeoutRef s) (scanTimeoutRef s) (subscriptionsRef s)
    h (timers s) (nextTimer s) (listeners s)
    (nextHandle s) (deviceScan s) (statusLog s).

Definition setTimers (m : gmap nat Timer) (n : nat) (s : Component)
  : Component :=
  mkComponent (isScanning s) (devices s) (connectedDevice s) (isConnected s)
    (notifications s) (autoReconnect s) (connectionStatus s)
    (bluetoothState s) (permissionsGranted s) (bleManagerRef s)
    (reconnectTimeoutRef s) (scanTimeoutRef s) (subscriptionsRef s)
    (stateSubscriptionRef s) m n (listeners s)
    (nextHandle s) (deviceScan s) (statusLog s).

Definition setListeners (l : list (nat * Listener)) (n : nat)
  (s : Component) : Component :=
  mkComponent (isScanning s) (devices s) (connectedDevice s) (isConnected s)
    (notifications s) (autoReconnect s) (connectionStatus s)
    (bluetoothState s) (permissionsGranted s) (bleManagerRef s)
    (reconnectTimeoutRef s) (scanTimeoutRef s) (subscriptionsRef s)
    (stateSubscriptionRef s) (timers s) (nextTimer s) l n
    (deviceScan s) (statusLog s).

Definition setDeviceScan (b : bool) (s : Component) : Component :=
  mkComponent (isScanning s) (devices s) (connectedDevice s) (isConnected s)
    (notifications s) (autoReconnect s) (connectionStatus s)
    (bluetoothState s) (permissionsGranted s) (bleManagerRef s)
    (reconnectTimeoutRef s) (scanTimeoutRef s) (subscriptionsRef s)
    (stateSubscriptionRef s) (timers s) (nextTimer s) (listeners s)
    (nextHandle s) b (statusLog s).

(** ** The host: timers and listeners *)

(** [setTimeout(cb, ms)]: a fresh handle, and the timer pending. *)
Definition setTimeout (cb : TimerCallback) (ms : Z) (s : Component)
  : nat * Component :=
  let t := nextTimer s in
  (t, setTimers (<[t := mkTimer ms cb]> (timers s)) (S t) s).

(** [clearTimeout(t)]: the timer no longer pending; nothing if it is not. *)
Definition clearTimeout (t : nat) (s : Component) : Component :=
  setTimers (delete t (timers s)) (nextTimer s) s.

(** Registering a listener with the adapter returns its [Subscription]. *)
Definition addListener (l : Listener) (s : Component) : nat * Component :=
  let h := nextHandle s in
  (h, setListeners (listeners s ++ [(h, l)]) (S h) s).

(** [subscription.remove()]. *)
Definition removeListener (h : nat) (s : Component) : Component :=
  setListeners (filter (λ hl, hl.1 ≠ h) (listeners s)) (nextHandle s) s.

(** The listener registered under a handle, while it is registered. *)
Fixpoint lookupListener (h : nat) (l : list (nat * Listener))
  : option Listener :=
  match l with
  | [] => None
  | (h', x) :: l' => if Nat.eqb h' h then Some x else lookupListener h l'
  end.

Definition liveListener (h : nat) (s : Component) : option Listener :=
  lookupListener h (listeners s).

(** ** JavaScript helpers *)

(** [s.includes(sub)]. *)
Fixpoint includes (s sub : string) : bool :=
  match s with
  | EmptyString => String.prefix sub EmptyString
  | String _ s' => String.prefix sub s || includes s' sub
  end.

(** [l.findIndex(p)]: the first index whose element satisfies [p], or -1. *)
Fixpoint findIndex {A} (p : A → bool) (l : list A) : Z :=
  match l with
  | [] => -1
  | x :: l' =>
      if p x then 0
      else let i := findIndex p l' in if (i =? -1)%Z then (-1)%Z else (i + 1)%Z
  end.

(** [l.slice(0, n)]. *)
Definition slice0 {A} (n : nat) (l : list A) : list A := take n l.

(** *** Numbers

    A JavaScript number is an IEEE 754 binary64 value, and [+] on numbers
    is the exact sum rounded to the nearest such value, ties to the even
    significand.  A finite double is the rational [m * 2^e] with
    [|m| < 2^53] and [-1074 <= e]; sums are taken on these rationals.  The
    sums of this component are a clock reading plus a number below one, far
    from the largest double, so the overflow to [Infinity] is left out. *)

Definition pow2 (e : Z) : Q := (2 ^ e)%Q.

(** For [0 < x], the exponent [e] with [2^e <= x < 2^(e+1)]. *)
Definition binade (x : Q) : Z :=
  let e := (Z.log2 (Qnum x) - Z.log2 (Zpos (Qden x)))%Z in
  if Qle_bool (pow2 e) x then e else (e - 1)%Z.

(** The nearest integer, ties to even. *)
Definition roundHalfEven (y : Q) : Z :=
  let f := Qfloor y in
  match (y - inject_Z f ?= 1 # 2)%Q with
  | Lt => f
  | Gt => (f + 1)%Z
  | Eq => if Z.even f then f else (f + 1)%Z
  end.

(** The double nearest to [x], for [0 < x]: doubles are spaced [2^(e-52)]
    apart in the binade [e], and [2^(-1074)] apart below [2^(-1022)]. *)
Definition roundPositive (x : Q) : Q :=
  let e := Z.max (binade x) (-1022) in
  let ulp := pow2 (e - 52) in
  (inject_Z (roundHalfEven (x / ulp)) * ulp)%Q.

Definition roundDouble (x : Q) : Q :=
  match (x ?= 0)%Q with
  | Eq => 0%Q
  | Gt => roundPositive x
  | Lt => (- roundPositive (- x))%Q
  end.

(** [a + b] on numbers. *)
Definition numberAdd (a b : Q) : Q := roundDouble (a + b).

(** ** Scanning (lines 208-310) *)

(** [stopScan], lines 300-310.  It reads refs only. *)
Definition stopScan (s : Component) : Component :=
  let s := if bleManagerRef s then setDeviceScan false s else s in
  let s := setIsScanning false s in
  match scanTimeoutRef s with
  | Some t => clearTimeout t s
  | None => s
  end.

(** [checkPrerequisites], lines 208-231.  [radio] is what
    [bleManager.state()] resolves to and [granted] what
    [requestPermissions()] resolves to when it is called. *)
Definition checkPrerequisites (env : Render) (radio : State) (granted : bool)
  (s : Component) : bool * Component :=
  if negb (bleManagerRef s) then (false, s)
  else if negb (isPoweredOn radio) then (false, s)
  else if negb (r_permissionsGranted env) then
    if negb granted then (false, s)
    else (true, setPermissionsGranted true s)
  else (true, s).

(** The updater passed to [setDevices] by the scan callback, lines 271-283. *)
Definition updateDevices (device : Device) (prevDevices : list Device)
  : list Device :=
  let existingDeviceIndex :=
    findIndex (λ d, String.eqb (device_id d) (device_id device)) prevDevices in
  if negb (existingDeviceIndex =? -1)%Z then
    <[Z.to_nat existingDeviceIndex := device]> prevDevices
  else prevDevices ++ [device].

(** The scan callback [(error, device) => ...], lines 251-285. *)
Definition scanCallback (error : option JsError) (device : option Device)
  (s : Component) : Component :=
  match error with
  | Some _ => setIsScanning false s
  | None =>
      match device with
      | Some d => setDevices (updateDevices d) s
      | None => s
      end
  end.

(** [startScan], lines 233-298.  [scanThrows] tells whether
    [startDeviceScan] throws. *)
Definition startScan (env : Render) (radio : State) (granted : bool)
  (scanThrows : bool) (s : Component) : Component :=
  let '(canProceed, s) := checkPrerequisites env radio granted s in
  if negb canProceed then s
  else
    let s := setIsScanning true s in
    let s := setDevices (λ _, []) s in
    if scanThrows then setIsScanning false s
    else
      let s := setDeviceScan true s in
      let '(t, s) := setTimeout ScanTimeout 20000 s in
      setScanTimeoutRef (Some t) s.

(** ** Subscriptions (lines 434-515) *)

(** The fields of [Characteristic] that the component reads. *)
Record Characteristic := mkCharacteristic {
  char_uuid : string;
  isNotifiable : bool;
  char_value : option string
}.

(** What the adapter answers while the services are walked: for every
    characteristic whether [monitor] throws, for every service what
    [characteristics()] resolves to. *)
Record CharacteristicEntry := mkCharacteristicEntry {
  characteristic : Characteristic;
  monitorThrows : bool
}.

Record ServiceEntry := mkServiceEntry {
  service_uuid : string;
  service_characteristics : Fallible (list CharacteristicEntry)
}.

(** What [subscribeToCharacteristics] leaves behind besides the store: the
    count it logs and, in order, the characteristics it called [monitor] on. *)
Record AttachReport := mkAttachReport {
  notificationCount : nat;
  monitorCalls : list string
}.

(** The body of the loop over the characteristics of a service,
    lines 451-500. *)
Definition subscribeCharacteristic (service : string)
  (acc : Component * AttachReport) (c : CharacteristicEntry)
  : Component * AttachReport :=
  let '(s, r) := acc in
  let uuid := char_uuid (characteristic c) in
  if isNotifiable (characteristic c) then
    if monitorThrows c then
      (s, mkAttachReport (notificationCount r) (monitorCalls r ++ [uuid]))
    else
      let '(subscription, s) :=
        addListener (CharacteristicMonitor service uuid) s in
      (setSubscriptionsRef (subscriptionsRef s ++ [subscription]) s,
       mkAttachReport (S (notificationCount r)) (monitorCalls r ++ [uuid]))
  else acc.

(** The body of the loop over the services, lines 442-507. *)
Definition subscribeService (acc : Component * AttachReport)
  (service : ServiceEntry) : Component * AttachReport :=
  match service_characteristics service with
  | Rejected _ => acc
  | Resolved characteristics =>
      foldl (subscribeCharacteristic (service_uuid service)) acc
        characteristics
  end.

(** [subscribeToCharacteristics]; nothing is logged when [services()]
    rejects. *)
Definition subscribeToCharacteristics (device : Device)
  (services : Fallible (list ServiceEntry)) (s : Component)
  : Component * option AttachReport :=
  match services with
  | Rejected _ => (s, None)
  | Resolved services =>
      let '(s, r) := foldl subscribeService (s, mkAttachReport 0 []) services in
      (s, Some r)
  end.

(** The updater of the notification list, lines 484-487. *)
Definition pushNotification (notification : NotificationData)
  (prev : list NotificationData) : list NotificationData :=
  notification :: slice0 99 prev.

(** The callback given to [characteristic.monitor], lines 467-489.  [now] is
    [Date.now()], [random] is [Math.random()], [time] is
    [new Date().toLocaleTimeString()]. *)
Definition monitorCallback (service : string) (error : option JsError)
  (char : option Characteristic) (now : Z) (random : Q) (time : string)
  (s : Component) : Component :=
  match error, char with
  | Some _, _ => s
  | None, Some c =>
      match char_value c with
      | Some v =>
          if String.eqb v "" then s
          else
            let notification :=
              {| notif_id := numberAdd (inject_Z now) random;
                 serviceUUID := service;
                 characteristicUUID := char_uuid c;
                 notif_value := v;
                 timestamp := time |} in
            setNotifications (pushNotification notification) s
      | None => s
      end
  | None, None => s
  end.

(** [subscriptionsRef.current.forEach(sub => sub.remove())] followed by
    [subscriptionsRef.current = []]. *)
Definition clearSubscriptions (s : Component) : Component :=
  setSubscriptionsRef [] (foldl (λ s h, removeListener h s) s
                            (subscriptionsRef s)).

(** ** Connecting (lines 312-430) *)

(** [scheduleReconnect], lines 422-430. *)
Definition scheduleReconnect (env : Render) (device : Device)
  (s : Component) : Component :=
  let s := setConnectionStatus Reconnecting s in
  let '(t, s) := setTimeout (ReconnectTimeout env device) 5000 s in
  setReconnectTimeoutRef (Some t) s.

(** [error?.message?.includes('cancelled')] as a condition. *)
Definition mentionsCancelled (error : option JsError) : bool :=
  match error with
  | Some e =>
      match message e with
      | Some m => includes m "cancelled"
      | None => false
      end
  | None => false
  end.

(** The listener given to [device.onDisconnected], lines 401-417. *)
Definition disconnectedCallback (env : Render) (device : Device)
  (error : option JsError) (disconnectedDevice : option Device)
  (s : Component) : Component :=
  let s := setIsConnected false s in
  let s := setConnectedDevice None s in
  let s := setConnectionStatus Disconnected s in
  let s := clearSubscriptions s in
  if r_autoReconnect env && negb (mentionsCancelled error) then
    scheduleReconnect env (default device disconnectedDevice) s
  else s.

(** [setupConnectionMonitoring], lines 396-420. *)
Definition setupConnectionMonitoring (env : Render) (device : Device)
  (s : Component) : Component :=
  let '(subscription, s) := addListener (DisconnectListener env device) s in
  setSubscriptionsRef (subscriptionsRef s ++ [subscription]) s.

(** The branch of the chain of lines 372-381 that an error takes. *)
Inductive ErrorKind :=
| ConnectTimeout
| DeviceNotFound
| DeviceDisconnectedDuringSetup
| OperationCancelled
| UnknownAdapterError.

(** [error.message || 'Unknown error']. *)
Definition rawMessage (error : JsError) : string :=
  match message error with
  | Some m => if String.eqb m "" then "Unknown error" else m
  | None => "Unknown error"
  end.

Definition classify (error : JsError) : ErrorKind :=
  let errorMessage := rawMessage error in
  if includes errorMessage "timeout" then ConnectTimeout
  else if includes errorMessage "Device not found" then DeviceNotFound
  else if includes errorMessage "Device disconnected" then
    DeviceDisconnectedDuringSetup
  else if includes errorMessage "Operation was cancelled" then
    OperationCancelled
  else UnknownAdapterError.

(** [errorMessage] after lines 370-381. *)
Definition errorMessageOf (error : JsError) : string :=
  let errorMessage := rawMessage error in
  if includes errorMessage "timeout" then
    "Connection timeout. Make sure the device is nearby and in pairing mode."
  else if includes errorMessage "Device not found" then
    "Device not found. It may have moved out of range."
  else if includes errorMessage "Device disconnected" then
    "Device disconnected during connection attempt."
  else if includes errorMessage "Operation was cancelled" then
    "Connection was cancelled."
  else errorMessage.

(** The [catch] block of [connectToDevice], lines 366-393. *)
Definition connectFailed (env : Render) (device : Device) (error : JsError)
  (s : Component) : Component :=
  let s := setConnectionStatus ConnectionFailed s in
  let errorMessage := errorMessageOf error in
  let s := setConnectedDevice None s in
  let s := setIsConnected false s in
  if r_autoReconnect env && negb (includes errorMessage "cancelled") then
    scheduleReconnect env device s
  else s.

(** What the adapter answers during one [connectToDevice]. *)
Inductive ConnectAttempt :=
| IsConnectedRejected (err : JsError)
    (* device.isConnected() rejects *)
| AlreadyConnected (services : Fallible (list ServiceEntry))
    (* device.isConnected() resolves to true *)
| ConnectRejected (err : JsError)
    (* bleManager.connectToDevice rejects *)
| DiscoveryRejected (err : JsError)
    (* discoverAllServicesAndCharacteristics rejects *)
| Linked (connectedDev : Device) (services : Fallible (list ServiceEntry)).
    (* both resolve *)

(** [connectToDevice], lines 312-394. *)
Definition connectToDevice (env : Render) (device : Device)
  (attempt : ConnectAttempt) (s : Component) : Component :=
  if negb (bleManagerRef s) then s
  else
    let s := setConnectionStatus Connecting s in
    let s := if r_isScanning env then stopScan s else s in
    match attempt with
    | IsConnectedRejected error => connectFailed env device error s
    | AlreadyConnected services =>
        let s := setConnectedDevice (Some device) s in
        let s := setIsConnected true s in
        let s := setConnectionStatus Connected s in
        (subscribeToCharacteristics device services s).1
    | ConnectRejected error => connectFailed env device error s
    | DiscoveryRejected error => connectFailed env device error s
    | Linked connectedDev services =>
        let s := setConnectedDevice (Some connectedDev) s in
        let s := setIsConnected true s in
        let s := setConnectionStatus Connected s in
        let s := setupConnectionMonitoring env connectedDev s in
        (subscribeToCharacteristics connectedDev services s).1
    end.

(** [disconnect], lines 521-549, is [async]: it runs up to
    [await cancelDeviceConnection] (line 538), hands the thread back, and
    runs its remaining lines once the call has settled, in the store as it
    is by then. *)

(** The test of line 522. *)
Definition disconnectReturns (env : Render) (s : Component) : bool :=
  negb (bleManagerRef s) || negb (bool_decide (is_Some (r_connectedDevice env))).

(** Lines 527-538, up to the await. *)
Definition disconnectRelease (s : Component) : Component :=
  let s := match reconnectTimeoutRef s with
           | Some t => clearTimeout t s
           | None => s
           end in
  clearSubscriptions s.

(** Lines 540-548.  [cancel] is what [cancelDeviceConnection] settled to. *)
Definition disconnectSettle (cancel : Fallible unit) (s : Component)
  : Component :=
  match cancel with
  | Rejected _ => s
  | Resolved _ =>
      let s := setConnectedDevice None s in
      let s := setIsConnected false s in
      let s := setConnectionStatus Disconnected s in
      setNotifications (λ _, []) s
  end.

(** [disconnect] when nothing else runs while the call is awaited. *)
Definition disconnect (env : Render) (cancel : Fallible unit)
  (s : Component) : Component :=
  if disconnectReturns env s then s
  else disconnectSettle cancel (disconnectRelease s).

(** ** The radio (lines 64-120) *)

(** [updateConnectionStatusFromBluetoothState], lines 106-120. *)
Definition updateConnectionStatusFromBluetoothState (env : Render)
  (state : State) (s : Component) : Component :=
  match state with
  | PoweredOn =>
      if negb (r_isConnected env) then setConnectionStatus Disconnected s
      else s
  | PoweredOff =>
      let s := setConnectionStatus BluetoothOff s in
      if r_isScanning env then stopScan s else s
  | _ => setConnectionStatus CheckingBluetooth s
  end.

(** The listener given to [onStateChange], lines 85-89. *)
Definition stateListener (env : Render) (newState : State) (s : Component)
  : Component :=
  let s := setBluetoothState newState s in
  updateConnectionStatusFromBluetoothState env newState s.

(** [initializeBLE], lines 71-104.  [radio] is what [bleManager.state()]
    settles to, [granted] the outcome of the permission step. *)
Definition initializeBLE (env : Render) (radio : Fallible State)
  (granted : bool) (s : Component) : Component :=
  let s := setBleManagerRef true s in
  match radio with
  | Rejected _ => s
  | Resolved state =>
      let s := setBluetoothState state s in
      let s := updateConnectionStatusFromBluetoothState env state s in
      let '(subscription, s) := addListener (StateListener env) s in
      let s := setStateSubscriptionRef (Some subscription) s in
      (* emitCurrentState: the listener is called with the current state *)
      let s := stateListener env state s in
      setPermissionsGranted granted s
  end.

(** The effect of lines 64-69 has no dependencies: it runs once, after the
    first render, so [initializeBLE] and everything it registers belong to
    the render of the initial store. *)
Definition mount (radio : Fallible State) (granted : bool) : Component :=
  initializeBLE (renderOf initialComponent) radio granted initialComponent.

(** ** Events of the host *)

(** A pending timer expires. *)
Definition fireTimer (t : nat) (attempt : ConnectAttempt) (s : Component)
  : Component :=
  match timers s !! t with
  | None => s
  | Some tm =>
      let s := clearTimeout t s in
      match callback tm with
      | ScanTimeout => stopScan s
      | ReconnectTimeout env device => connectToDevice env device attempt s
      end
  end.

(** The adapter reports a new power state to the state listeners. *)
Definition radioStateChanged (newState : State) (s : Component)
  : Component :=
  foldl (λ s hl,
           match hl.2, liveListener hl.1 s with
           | StateListener env, Some _ => stateListener env newState s
           | _, _ => s
           end) s (listeners s).

(** The adapter reports that the peripheral [deviceId] dropped the link. *)
Definition peripheralDisconnected (deviceId : string)
  (error : option JsError) (disconnectedDevice : option Device)
  (s : Component) : Component :=
  foldl (λ s hl,
           match hl.2, liveListener hl.1 s with
           | DisconnectListener env device, Some _ =>
               if String.eqb (device_id device) deviceId then
                 disconnectedCallback env device error disconnectedDevice s
               else s
           | _, _ => s
           end) s (listeners s).

(** The adapter delivers a value to the monitor registered as [h]. *)
Definition characteristicChanged (h : nat) (error : option JsError)
  (char : option Characteristic) (now : Z) (random : Q) (time : string)
  (s : Component) : Component :=
  match liveListener h s with
  | Some (CharacteristicMonitor service _) =>
      monitorCallback service error char now random time s
  | _ => s
  end.

(** ** Vocabulary of the statements *)

(** *** Discovery *)

(** A run of discovery events delivered to the scan callback. *)
Definition discover (events : list Device) (s : Component) : Component :=
  foldl (λ s d, scanCallback None (Some d) s) s events.

(** Identities in the order in which they were first seen. *)
Definition sight (seen : list string) (i : string) : list string :=
  if bool_decide (i ∈ seen) then seen else seen ++ [i].

Definition firstSightings (ids : list string) : list string :=
  foldl sight [] ids.

(** The most recent event for an identity. *)
Definition latest (i : string) (events : list Device) : option Device :=
  last (filter (λ e, device_id e = i) events).

(** *** Notifications *)

(** One value update as the monitor callback receives it. *)
Record Tick := mkTick {
  tick_char : Characteristic;
  tick_now : Z;
  tick_random : Q;
  tick_time : string
}.

Definition notify (service : string) (s : Component) (k : Tick)
  : Component :=
  monitorCallback service None (Some (tick_char k)) (tick_now k)
    (tick_random k) (tick_time k) s.

Definition notifyAll (service : string) (ticks : list Tick) (s : Component)
  : Component :=
  foldl (notify service) s ticks.

(** The event a value update is turned into; none when the update carries
    no value. *)
Definition notificationOf (service : string) (k : Tick)
  : option NotificationData :=
  match char_value (tick_char k) with
  | Some v =>
      if String.eqb v "" then None
      else Some {| notif_id := numberAdd (inject_Z (tick_now k))
                                 (tick_random k);
                   serviceUUID := service;
                   characteristicUUID := char_uuid (tick_char k);
                   notif_value := v;
                   timestamp := tick_time k |}
  | None => None
  end.

(** [Math.random()] lies in [0, 1). *)
Definition validRandom (k : Tick) : Prop :=
  (0 <= tick_random k)%Q ∧ (tick_random k < 1)%Q.

(** [Date.now()] counts the milliseconds since 1970; a time value is at
    most 8.64e15 in magnitude, below 2^53. *)
Definition validClock (k : Tick) : Prop :=
  (0 ≤ tick_now k)%Z ∧ (tick_now k + 1 < 2 ^ 53)%Z.

(** *** Connecting *)

(** The error of an attempt that ends in the [catch] block. *)
Definition failureOf (attempt : ConnectAttempt) : option JsError :=
  match attempt with
  | IsConnectedRejected e | ConnectRejected e | DiscoveryRejected e => Some e
  | AlreadyConnected _ | Linked _ _ => None
  end.

(** The test of line 390 on the classified message. *)
Definition isCancellation (error : JsError) : bool :=
  includes (errorMessageOf error) "cancelled".

(** Whether a failure counts as a cancellation when it is classified: it
    takes the branch 'Operation was cancelled' of the chain, or it takes no
    branch and its own message contains 'cancelled'. *)
Definition countsAsCancelled (error : JsError) : bool :=
  match classify error with
  | OperationCancelled => true
  | UnknownAdapterError => includes (rawMessage error) "cancelled"
  | _ => false
  end.

(** Whether a disconnect listener for the peripheral is registered. *)
Definition isDisconnectListenerOf (deviceId : string) (l : Listener) : bool :=
  match l with
  | DisconnectListener _ device => String.eqb (device_id device) deviceId
  | _ => false
  end.

Definition monitored (deviceId : string) (s : Component) : bool :=
  existsb (λ hl, isDisconnectListenerOf deviceId hl.2) (listeners s).

(** *** Subscribing *)

(** The notifiable characteristics that the walk reaches, in order, each with
    the service it belongs to. *)
Definition notifiableOf (service : ServiceEntry)
  : list (string * CharacteristicEntry) :=
  match service_characteristics service with
  | Rejected _ => []
  | Resolved cs =>
      (λ c, (service_uuid service, c))
        <$> filter (λ c, isNotifiable (characteristic c) = true) cs
  end.

Definition notifiable (services : list ServiceEntry)
  : list (string * CharacteristicEntry) :=
  services ≫= notifiableOf.

(** Those on which [monitor] returns a subscription. *)
Definition established (services : list ServiceEntry)
  : list (string * CharacteristicEntry) :=
  filter (λ c, monitorThrows c.2 = false) (notifiable services).

(** *** Sample data *)

Definition peripheralA : Device :=
  mkDevice "AA:01" (Some "Sensor A") (Some (-40)%Z) (Some true) None.

Definition peripheralA' : Device :=
  mkDevice "AA:01" (Some "Sensor A") (Some (-72)%Z) (Some true) None.

Definition peripheralB : Device :=
  mkDevice "BB:02" None (Some (-55)%Z) (Some true) (Some ["180D"]).

Definition timeoutError : JsError :=
  mkError (Some "Device connection timeout").

Definition cancelledError : JsError :=
  mkError (Some "Operation was cancelled").

(** A failure that no branch of the chain takes. *)
Definition pairingCancelled : JsError :=
  mkError (Some "Pairing cancelled by user").

Definition heartRate : list CharacteristicEntry :=
  [ mkCharacteristicEntry (mkCharacteristic "2A37" true None) false;
    mkCharacteristicEntry (mkCharacteristic "2A38" false None) false;
    mkCharacteristicEntry (mkCharacteristic "2A39" true None) true;
    mkCharacteristicEntry (mkCharacteristic "2A3A" true None) false ].

Definition sampleServices : list ServiceEntry :=
  [ mkServiceEntry "180D" (Resolved heartRate);
    mkServiceEntry "180F" (Rejected (mkError None));
    mkServiceEntry "1810"
      (Resolved [mkCharacteristicEntry (mkCharacteristic "2A35" true None)
                   false]) ].

(** The component after mounting with the radio on and permissions given. *)
Definition mounted : Component := mount (Resolved PoweredOn) true.

(** A scan started from there by a press. *)
Definition scanning : Component :=
  startScan (renderOf mounted) PoweredOn true false mounted.

(** A first connect to A that timed out: a reconnect is pending. *)
Definition reconnectingA : Component :=
  connectToDevice (renderOf mounted) peripheralA
    (ConnectRejected timeoutError) mounted.

(** A press on B while that reconnect is pending; B links. *)
Definition connectedB : Component :=
  connectToDevice (renderOf reconnectingA) peripheralB
    (Linked peripheralB (Resolved sampleServices)) reconnectingA.

(** A value update of characteristic 2A37 at clock [now]. *)
Definition tickAt (now : Z) (random : Q) : Tick :=
  mkTick (mkCharacteristic "2A37" true (Some "AQI=")) now random "10:00:00".

(** 105 updates within one millisecond, the random parts decreasing. *)
Definition burst : list Tick :=
  (λ i : nat, tickAt 1000 (Qmake (104 - Z.of_nat i) 128)) <$> seq 0 105.

(** *** Closed forms of the handlers *)

(** The device list after a run of discovery events. *)
Definition upsertAll (evs : list Device) (acc : list Device) : list Device :=
  foldl (λ l d, updateDevices d l) acc evs.

(** Nothing of a scan is left: [isScanning] is false, the adapter's scan is
    off and the timer of [scanTimeoutRef] is not pending. *)
Definition scanIdle (s : Component) : bool :=
  negb (isScanning s) && negb (bleManagerRef s && deviceScan s)
  && match scanTimeoutRef s with
     | Some t => negb (bool_decide (is_Some (timers s !! t)))
     | None => true
     end.

(** No auto-stop timer is pending. *)
Definition noScanTimer (s : Component) : Prop :=
  ∀ t tm, timers s !! t = Some tm → callback tm ≠ ScanTimeout.

(** Whether a [startScan] gets as far as arming its timer. *)
Definition scanStarts (env : Render) (radio : State) (granted : bool)
  (scanThrows : bool) (s : Component) : bool :=
  (checkPrerequisites env radio granted s).1 && negb scanThrows.

(** The store after [monitor] returned a subscription for one entry. *)
Definition registerMonitor (s : Component) (e : string * CharacteristicEntry)
  : Component :=
  let '(subscription, s) :=
    addListener (CharacteristicMonitor e.1 (char_uuid (characteristic e.2))) s in
  setSubscriptionsRef (subscriptionsRef s ++ [subscription]) s.

(** ... for a run of entries. *)
Definition registerMonitors (es : list (string * CharacteristicEntry))
  (s : Component) : Component :=
  foldl registerMonitor s es.

(** The store when the [try] block of [connectToDevice] reaches its first
    await. *)
Definition beginConnect (env : Render) (s : Component) : Component :=
  let s := setConnectionStatus Connecting s in
  if r_isScanning env then stopScan s else s.

(** The characteristic of an entry. *)
Definition entryUuid (e : string * CharacteristicEntry) : string :=
  char_uuid (characteristic e.2).

(** The entries that end up subscribed; none when [services()] rejects. *)
Definition establishedOf (services : Fallible (list ServiceEntry))
  : list (string * CharacteristicEntry) :=
  match services with
  | Resolved services => established services
  | Rejected _ => []
  end.

(** The listener that [monitor] registers for an entry. *)
Definition monitorOf (e : string * CharacteristicEntry) : Listener :=
  CharacteristicMonitor e.1 (entryUuid e).

(** The three [setState] calls of a connect that succeeded. *)
Definition connectedStore (device : Device) (s : Component) : Component :=
  setConnectionStatus Connected
    (setIsConnected true (setConnectedDevice (Some device) s)).

(** [remove()] on a run of subscriptions. *)
Definition removeListeners (hs : list nat) (s : Component) : Component :=
  foldl (λ s h, removeListener h s) s hs.

(** The log after a run of pushes. *)
Definition pushAll (events : list NotificationData)
  (log : list NotificationData) : list NotificationData :=
  foldl (λ log n, pushNotification n log) log events.

(** 105 updates one millisecond apart. *)
Definition steady : list Tick :=
  (λ i : nat, tickAt (1000 + Z.of_nat i) (Qmake 1 2)) <$> seq 0 105.

(** 105 updates two milliseconds apart. *)
Definition paced : list Tick :=
  (λ i : nat, tickAt (1000 + 2 * Z.of_nat i) (Qmake 1 2)) <$> seq 0 105.

(** A test for [<] on the rationals. *)
Definition Qltb (a b : Q) : bool := negb (Qle_bool b a).

(** Whether every event has a smaller id than all the events after it. *)
Fixpoint increasingb (l : list NotificationData) : bool :=
  match l with
  | [] => true
  | x :: l' =>
      forallb (λ y, Qltb (notif_id x) (notif_id y)) l' && increasingb l'
  end.

(** What [connectToDevice] does to the parts of the store that the timers
    live in. *)
Record TimerFrame (t : nat) (s s' : Component) : Prop := {
  frame_ble : bleManagerRef s' = bleManagerRef s;
  frame_timer : timers s' !! t = timers s !! t;
  frame_next : nextTimer s ≤ nextTimer s'
}.

(** ** Teardown (lines 178-206) *)

(** [cleanup].  [cancelDeviceConnection] and [destroy] act on the adapter
    only; the store keeps no trace of them. *)
Definition cleanup (s : Component) : Component :=
  let s := match scanTimeoutRef s with
           | Some t => clearTimeout t s
           | None => s
           end in
  let s := match reconnectTimeoutRef s with
           | Some t => clearTimeout t s
           | None => s
           end in
  let s := match stateSubscriptionRef s with
           | Some h => removeListener h s
           | None => s
           end in
  let s := clearSubscriptions s in
  if bleManagerRef s then setDeviceScan false s else s.

(** ** What the screen lets through (lines 567-712) *)

(** [canStartScan], lines 612-613. *)
Definition canStartScan (s : Component) : bool :=
  isPoweredOn (bluetoothState s) && permissionsGranted s
  && negb (isScanning s).

(** The scan button: [onPress={isScanning ? stopScan : startScan}],
    [disabled={!canStartScan}], lines 629-633. *)
Definition pressScan (radio : State) (granted scanThrows : bool)
  (s : Component) : Component :=
  if negb (canStartScan s) then s
  else if isScanning s then stopScan s
  else startScan (renderOf s) radio granted scanThrows s.

(** An item of the device list: [onPress={() => connectToDevice(item)}],
    [disabled={isConnected || bluetoothState !== 'PoweredOn'}],
    lines 575-576.  [i] is the position of the item in the list. *)
Definition pressDevice (i : nat) (attempt : ConnectAttempt) (s : Component)
  : Component :=
  match devices s !! i with
  | None => s
  | Some item =>
      if isConnected s || negb (isPoweredOn (bluetoothState s)) then s
      else connectToDevice (renderOf s) item attempt s
  end.

(** The disconnect button is rendered when [isConnected], lines 649-656.
    The press is taken with nothing else running while [disconnect]
    awaits. *)
Definition pressDisconnect (cancel : Fallible unit) (s : Component)
  : Component :=
  if isConnected s then disconnect (renderOf s) cancel s else s.

(** ** Runs of events *)

(** What can happen to a mounted component: a press on one of its controls,
    as far as the screen lets it through, or a callback of the adapter or of
    a timer.  Nothing is assumed about the order in which they come. *)
Inductive Event :=
| PressScan (radio : State) (granted scanThrows : bool)
| PressDevice (i : nat) (attempt : ConnectAttempt)
| PressDisconnect (cancel : Fallible unit)
| ToggleAutoReconnect (value : bool)
| ScanResult (error : option JsError) (device : option Device)
| TimerFires (t : nat) (attempt : ConnectAttempt)
| RadioChanged (newState : State)
| PeripheralDropped (deviceId : string) (error : option JsError)
    (disconnectedDevice : option Device)
| ValueChanged (h : nat) (error : option JsError)
    (char : option Characteristic) (now : Z) (random : Q) (time : string).

Definition handle (s : Component) (e : Event) : Component :=
  match e with
  | PressScan radio granted scanThrows => pressScan radio granted scanThrows s
  | PressDevice i attempt => pressDevice i attempt s
  | PressDisconnect cancel => pressDisconnect cancel s
  | ToggleAutoReconnect value => setAutoReconnect value s
  | ScanResult error device => scanCallback error device s
  | TimerFires t attempt => fireTimer t attempt s
  | RadioChanged newState => radioStateChanged newState s
  | PeripheralDropped deviceId error disconnectedDevice =>
      peripheralDisconnected deviceId error disconnectedDevice s
  | ValueChanged h error char now random time =>
      characteristicChanged h error char now random time s
  end.

(** The store after mounting with the radio in [radio] and a run of
    events. *)
Definition run (radio : State) (granted : bool) (events : list Event)
  : Component :=
  foldl handle (mount (Resolved radio) granted) events.

Definition isStateListener (l : Listener) : bool :=
  match l with StateListener _ => true | _ => false end.

(** What every handler keeps. *)
Record Inv (s : Component) : Prop := {
  inv_manager : bleManagerRef s = true;
  inv_connected :
    isConnected s = bool_decide (is_Some (connectedDevice s));
  inv_log : length (notifications s) ≤ 100;
  inv_devices : NoDup (device_id <$> devices s);
  inv_timers : ∀ t tm, timers s !! t = Some tm → t < nextTimer s;
  inv_scanTimeout :
    ∀ t, scanTimeoutRef s = Some t →
         t < nextTimer s
         ∧ ∀ tm, timers s !! t = Some tm → callback tm = ScanTimeout;
  inv_listener :
    ∃ rest, listeners s
            = (1, StateListener (renderOf initialComponent)) :: rest
            ∧ Forall (λ hl, isStateListener hl.2 = false) rest
            ∧ fst <$> rest = subscriptionsRef s;
  inv_handles :
    Forall (λ h, 2 ≤ h < nextHandle s) (subscriptionsRef s)
    ∧ NoDup (subscriptionsRef s) ∧ 2 ≤ nextHandle s;
  inv_stateSubscription : stateSubscriptionRef s = Some 1
}.

(** ** Permissions (lines 122-176) *)

Inductive Permission :=
| BLUETOOTH_SCAN
| BLUETOOTH_CONNECT
| ACCESS_FINE_LOCATION
| ACCESS_COARSE_LOCATION.

(** [PermissionsAndroid.RESULTS]. *)
Inductive PermissionStatus := GRANTED | DENIED | NEVER_ASK_AGAIN.

Definition isGranted (r : PermissionStatus) : bool :=
  match r with GRANTED => true | _ => false end.

(** The permissions asked for at an API level, lines 130-148; [None] when
    the function returns before asking. *)
Definition permissionsFor (androidVersion : Z) : option (list Permission) :=
  if (31 <=? androidVersion)%Z then
    Some [BLUETOOTH_SCAN; BLUETOOTH_CONNECT; ACCESS_FINE_LOCATION]
  else if (23 <=? androidVersion)%Z then
    Some [ACCESS_COARSE_LOCATION; ACCESS_FINE_LOCATION]
  else None.

(** [requestPermissions].  [requestMultiple] is what
    [PermissionsAndroid.requestMultiple] settles to, its results listed as
    [Object.values] lists them. *)
Definition requestPermissions (androidVersion : Z)
  (requestMultiple : list Permission → Fallible (list PermissionStatus))
  : bool :=
  match permissionsFor androidVersion with
  | None => true
  | Some permissions =>
      match requestMultiple permissions with
      | Resolved granted => forallb isGranted granted
      | Rejected _ => false
      end
  end.

(** The events that write the notification log. *)
Definition writesLog (e : Event) : bool :=
  match e with
  | ValueChanged _ _ _ _ _ _ | PressDisconnect _ => true
  | _ => false
  end.

(** The events that write the device list. *)
Definition writesDevices (e : Event) : bool :=
  match e with
  | PressScan _ _ _ | ScanResult _ _ => true
  | _ => false
  end.

(** The events that cancel the pending timer [t]: its own expiry, and a
    press on the disconnect button. *)
Definition cancels (t : nat) (e : Event) : bool :=
  match e with
  | TimerFires t' _ => Nat.eqb t' t
  | PressDisconnect _ => true
  | _ => false
  end.

(** [clearTimeout] on the timer of a ref, if it holds one. *)
Definition clearRef (ref : option nat) (m : gmap nat Timer) : gmap nat Timer :=
  match ref with
  | Some t => delete t m
  | None => m
  end.

(** A scan found A, the connect to A timed out, B was found and linked,
    while the reconnect to A stayed pending. *)
Definition sampleRun : list Event :=
  [ PressScan PoweredOn true false;
    ScanResult None (Some peripheralA);
    ScanResult None (Some peripheralB);
    PressDevice 0 (ConnectRejected timeoutError);
    PressDevice 1 (Linked peripheralB (Resolved sampleServices)) ].

(** The status and the connected device agree: a failed or reconnecting
    session has no device, a connected one has. *)
Definition statusAgrees (s : Component) : Prop :=
  match connectionStatus s with
  | Reconnecting | ConnectionFailed => connectedDevice s = None
  | Connected => is_Some (connectedDevice s)
  | _ => True
  end.

(** ** Runs in which the awaits interleave *)

(** Between the awaits of an [async] handler other code can run.  A
    stretch is what runs without interruption: an event taken whole, or the
    part of [connectToDevice], [startScan] or [disconnect] between two
    awaits.  The render a stretch closes over and the answer of the adapter
    it resumes with are arguments; nothing is assumed about which stretches
    come, in which order, or with which arguments. *)
Inductive Stretch :=
| Whole (e : Event)
| TimerExpires (t : nat)
    (* the callback of a timer, up to its first await *)
| ConnectBegins (env : Render)
    (* lines 313-329 *)
| ConnectShortCircuits (device : Device)
    (* lines 330-335 *)
| ConnectLinks (env : Render) (connectedDev : Device)
    (* lines 349-363 *)
| ConnectFails (env : Render) (device : Device) (error : JsError)
    (* lines 366-393 *)
| AttachWalks (device : Device) (services : Fallible (list ServiceEntry))
    (* lines 438-514, or the part of them for some of the services *)
| ScanProceeds (env : Render) (radio : State) (granted scanThrows : bool)
    (* lines 236-297 *)
| DisconnectReleases (env : Render)
    (* lines 522-538 *)
| DisconnectSettles (cancel : Fallible unit).
    (* lines 540-548 *)

Definition advance (s : Component) (st : Stretch) : Component :=
  match st with
  | Whole e => handle s e
  | TimerExpires t =>
      match timers s !! t with
      | None => s
      | Some tm =>
          let s := clearTimeout t s in
          match callback tm with
          | ScanTimeout => stopScan s
          | ReconnectTimeout env _ =>
              if negb (bleManagerRef s) then s else beginConnect env s
          end
      end
  | ConnectBegins env =>
      if negb (bleManagerRef s) then s else beginConnect env s
  | ConnectShortCircuits device => connectedStore device s
  | ConnectLinks env connectedDev =>
      setupConnectionMonitoring env connectedDev
        (connectedStore connectedDev s)
  | ConnectFails env device error => connectFailed env device error s
  | AttachWalks device services =>
      (subscribeToCharacteristics device services s).1
  | ScanProceeds env radio granted scanThrows =>
      startScan env radio granted scanThrows s
  | DisconnectReleases env =>
      if disconnectReturns env s then s else disconnectRelease s
  | DisconnectSettles cancel => disconnectSettle cancel s
  end.

(** The store after mounting and a run of stretches. *)
Definition interleaved (radio : State) (granted : bool)
  (stretches : list Stretch) : Component :=
  foldl advance (mount (Resolved radio) granted) stretches.


(** * Properties *)

(** ** Scanning *)

Lemma stopScan_isScanning s : isScanning (stopScan s) = false.
Proof.
  destruct s as [? ? ? ? ? ? ? ? ? [] ? [t|] ? ? ? ? ? ? ? ?]; reflexivity.
Qed.

Lemma stopScan_timers s :
  timers (stopScan s)
  = match scanTimeoutRef s with
    | Some t => delete t (timers s)
    | None => timers s
    end.
Proof.
  destruct s as [? ? ? ? ? ? ? ? ? [] ? [t|] ? ? ? ? ? ? ? ?]; reflexivity.
Qed.

Lemma stopScan_idem s : stopScan (stopScan s) = stopScan s.
Proof.
  destruct s as [? ? ? ? ? ? ? ? ? [] ? [t|] ? ? ? ? ? ? ? ?];
    unfold stopScan, clearTimeout; simpl; rewrite ?delete_delete_eq;
    reflexivity.
Qed.

Lemma fireTimer_cancelled t attempt s :
  timers s !! t = None → fireTimer t attempt s = s.
Proof. intros H. unfold fireTimer. by rewrite H. Qed.

Lemma stopScan_idle s : scanIdle s = true → stopScan s = s.
Proof.
  unfold scanIdle, stopScan, clearTimeout.
  destruct s as [sc ? ? ? ? ? ? ? ? ble ? [t|] ? ? tms ? ? ? ds ?]; simpl;
    destruct sc; simpl; try discriminate;
    destruct ble, ds; simpl; try discriminate; try reflexivity.
  all: intros H; apply negb_true_iff, bool_decide_eq_false in H;
    apply eq_None_not_Some in H; unfold setTimers; simpl;
    by rewrite delete_id.
Qed.

Lemma startStop_timers env radio granted scanThrows s t tm :
  timers (stopScan (startScan env radio granted scanThrows s)) !! t = Some tm →
  timers s !! t = Some tm.
Proof.
  rewrite stopScan_timers. unfold startScan, checkPrerequisites.
  assert (∀ ref (m : gmap nat Timer),
            match ref with Some t0 => delete t0 m | None => m end !! t
            = Some tm → m !! t = Some tm) as Hdel.
  { intros [t0|] m; [|done]. by intros [_ H]%lookup_delete_Some. }
  destruct s as [? ? ? ? ? ? ? ? ? [] ? ref ? ? ? nt ? ? ? ?]; simpl;
    [|apply Hdel].
  destruct (isPoweredOn radio); simpl; [|apply Hdel].
  destruct (r_permissionsGranted env), granted, scanThrows; simpl;
    try apply Hdel.
  all: intros [Hne H]%lookup_delete_Some; by rewrite lookup_insert_ne in H.
Qed.

(** C9, as amended.  Whatever [startScan] did, one [stopScan] leaves
    [isScanning] false; when the scan had started, its timer of 20000 ms was
    pending in [scanTimeoutRef] and is no longer pending after the stop, so
    firing it does nothing, and the adapter's scan is off.  The stop cancels
    no other timer.  A second [stopScan] changes nothing, and in any store
    [stopScan] leaves [isScanning] false and is idempotent; it changes
    nothing in a store in which nothing of a scan is left.  When no
    auto-stop timer was pending before the start, none is pending after the
    stop. *)
Theorem stopScan_cancels_its_timer env radio granted scanThrows attempt s :
  let s1 := startScan env radio granted scanThrows s in
  let s2 := stopScan s1 in
  (if scanStarts env radio granted scanThrows s then
     isScanning s1 = true
     ∧ scanTimeoutRef s1 = Some (nextTimer s)
     ∧ timers s1 !! nextTimer s = Some (mkTimer 20000 ScanTimeout)
     ∧ deviceScan s2 = false
   else timers s1 = timers s)
  ∧ isScanning s2 = false
  ∧ match scanTimeoutRef s1 with
    | Some t => timers s2 !! t = None ∧ fireTimer t attempt s2 = s2
    | None => True
    end
  ∧ (∀ t, scanTimeoutRef s1 ≠ Some t → timers s2 !! t = timers s1 !! t)
  ∧ stopScan s2 = s2
  ∧ isScanning (stopScan s) = false
  ∧ stopScan (stopScan s) = stopScan s
  ∧ (scanIdle s = true → stopScan s = s)
  ∧ (noScanTimer s → noScanTimer s2).
Proof.
  intros s1 s2. split_and!.
  - unfold scanStarts, s2, s1, startScan, checkPrerequisites.
    destruct s as [? ? ? ? ? ? ? ? ? [] ? ? ? ? ? ? ? ? ? ?]; simpl;
      [|reflexivity].
    destruct (isPoweredOn radio); simpl; [|reflexivity].
    destruct (r_permissionsGranted env), granted, scanThrows; simpl;
      try reflexivity;
      (split_and!; [reflexivity | reflexivity | apply lookup_insert_eq
                   | reflexivity]).
  - apply stopScan_isScanning.
  - destruct (scanTimeoutRef s1) as [t|] eqn:Ht; [|done].
    assert (timers s2 !! t = None) as Hgone.
    { unfold s2. rewrite stopScan_timers, Ht. apply lookup_delete_eq. }
    split; [done | by apply fireTimer_cancelled].
  - intros t Ht. unfold s2. rewrite stopScan_timers.
    destruct (scanTimeoutRef s1) as [t0|]; [|done].
    apply lookup_delete_ne. congruence.
  - apply stopScan_idem.
  - apply stopScan_isScanning.
  - apply stopScan_idem.
  - apply stopScan_idle.
  - intros Hnone t tm Ht. apply (Hnone t).
    by apply (startStop_timers env radio granted scanThrows).
Qed.

(** Right after mounting nothing of a scan is left and no timer is
    pending. *)
Lemma stopScan_cancels_its_timer_witness :
  scanIdle mounted = true
  ∧ noScanTimer mounted
  ∧ stopScan mounted = mounted
  ∧ noScanTimer (stopScan scanning).
Proof.
  assert (noScanTimer mounted) as Hnone.
  { intros t tm H.
    replace (timers mounted) with (∅ : gmap nat Timer) in H
      by (vm_compute; reflexivity).
    by rewrite lookup_empty in H. }
  destruct (stopScan_cancels_its_timer (renderOf mounted) PoweredOn true false
              (ConnectRejected timeoutError) mounted)
    as (_ & _ & _ & _ & _ & _ & _ & Hidle & Hlate).
  split; [vm_compute; reflexivity|]. split; [exact Hnone|].
  split; [apply Hidle; vm_compute; reflexivity | exact (Hlate Hnone)].
Defined.

(** C9 fails as stated.  A scan error sets [isScanning] to false and leaves
    the timer of that scan pending: a [stopScan] in this store, which is not
    scanning, cancels the timer and so changes the store.  And when a new
    scan is started instead, its [startScan] overwrites [scanTimeoutRef];
    the [stopScan] after it cancels the new timer and leaves the old one
    pending, and that one, when it expires, stops the scan started after
    the stop. *)
Lemma stop_leaves_older_scan_timer :
  let failed := scanCallback (Some (mkError None)) None scanning in
  let s1 := startScan (renderOf failed) PoweredOn true false failed in
  let s2 := stopScan s1 in
  let s3 := startScan (renderOf s2) PoweredOn true false s2 in
  let s4 := fireTimer 1 (ConnectRejected timeoutError) s3 in
  isScanning failed = false
  ∧ timers failed !! 1 = Some (mkTimer 20000 ScanTimeout)
  ∧ timers (stopScan failed) !! 1 = None
  ∧ stopScan failed ≠ failed
  ∧ isScanning s1 = true
  ∧ scanTimeoutRef s1 = Some 2
  ∧ isScanning s2 = false
  ∧ timers s2 !! 2 = None
  ∧ timers s2 !! 1 = Some (mkTimer 20000 ScanTimeout)
  ∧ isScanning s3 = true
  ∧ isScanning s4 = false
  ∧ deviceScan s4 = false.
Proof.
  intros failed s1 s2 s3 s4.
  split_and!; try (vm_compute; reflexivity).
  intros H. apply (f_equal (λ s, timers s !! 1)) in H.
  vm_compute in H. discriminate.
Qed.

(** ** Discovery *)

Lemma findIndex_ge {A} (p : A → bool) l : (-1 ≤ findIndex p l)%Z.
Proof.
  induction l as [|x l IH]; simpl; [lia|].
  destruct (p x); [lia|]. destruct (Z.eqb_spec (findIndex p l) (-1)); lia.
Qed.

Lemma findIndex_none {A} (p : A → bool) l :
  findIndex p l = (-1)%Z ↔ Forall (λ x, p x = false) l.
Proof.
  induction l as [|x l IH]; simpl.
  - split; [constructor | done].
  - destruct (p x) eqn:Hp.
    + split; [done|]. intros H. inversion H; congruence.
    + pose proof (findIndex_ge p l) as Hge.
      destruct (Z.eqb_spec (findIndex p l) (-1)) as [E|E].
      * split; [|done]. intros _. constructor; [done | by apply IH].
      * split; [lia|]. intros H. inversion H; subst. tauto.
Qed.

Lemma findIndex_some {A} (p : A → bool) l :
  findIndex p l ≠ (-1)%Z →
  ∃ x, l !! Z.to_nat (findIndex p l) = Some x ∧ p x = true.
Proof.
  induction l as [|x l IH]; simpl; [done|].
  destruct (p x) eqn:Hp.
  - intros _. by exists x.
  - pose proof (findIndex_ge p l).
    destruct (Z.eqb_spec (findIndex p l) (-1)) as [E|E]; [done|].
    intros _. destruct (IH E) as (y & Hy & Hpy). exists y. split; [|done].
    replace (Z.to_nat (findIndex p l + 1)) with (S (Z.to_nat (findIndex p l)))
      by lia.
    done.
Qed.

Lemma updateDevices_ids d l :
  device_id <$> updateDevices d l = sight (device_id <$> l) (device_id d).
Proof.
  unfold updateDevices, sight.
  set (p := λ x : Device, String.eqb (device_id x) (device_id d)).
  destruct (Z.eqb_spec (findIndex p l) (-1)) as [E|E]; simpl.
  - apply findIndex_none in E. rewrite bool_decide_eq_false_2.
    + by rewrite fmap_app.
    + intros Hin. apply list_elem_of_fmap in Hin as (x & Hx & Hin).
      rewrite Forall_forall in E. specialize (E x Hin). unfold p in E.
      apply String.eqb_neq in E. congruence.
  - destruct (findIndex_some p l E) as (x & Hx & Hp).
    unfold p in Hp. apply String.eqb_eq in Hp.
    rewrite bool_decide_eq_true_2.
    + rewrite list_fmap_insert. apply list_insert_id.
      rewrite list_lookup_fmap, Hx. simpl. by rewrite Hp.
    + apply list_elem_of_fmap. exists x. split; [done|].
      by eapply list_elem_of_lookup_2.
Qed.

Lemma sight_NoDup acc i : NoDup acc → NoDup (sight acc i).
Proof.
  intros H. unfold sight. case_bool_decide; [done|].
  apply NoDup_app. split_and!; [done| |apply NoDup_singleton].
  intros x Hx Hx'. apply list_elem_of_singleton in Hx'. by subst.
Qed.

Lemma sight_elem acc i x : x ∈ sight acc i ↔ x ∈ acc ∨ x = i.
Proof.
  unfold sight. case_bool_decide.
  - split; [tauto|]. intros [?| ->]; done.
  - rewrite elem_of_app, list_elem_of_singleton. done.
Qed.

Lemma foldl_sight_NoDup ids acc : NoDup acc → NoDup (foldl sight acc ids).
Proof.
  revert acc. induction ids as [|i ids IH]; intros acc H; simpl; [done|].
  by apply IH, sight_NoDup.
Qed.

Lemma foldl_sight_elem ids acc x :
  x ∈ foldl sight acc ids ↔ x ∈ acc ∨ x ∈ ids.
Proof.
  revert acc. induction ids as [|i ids IH]; intros acc; simpl.
  - rewrite elem_of_nil. tauto.
  - rewrite IH, sight_elem, elem_of_cons. tauto.
Qed.

Lemma firstSightings_length ids :
  length (firstSightings ids) = size (list_to_set ids : gset string).
Proof.
  rewrite <- (size_list_to_set (C := gset string) (firstSightings ids)).
  - f_equal. apply set_eq. intros x. rewrite !elem_of_list_to_set.
    unfold firstSightings. rewrite foldl_sight_elem, elem_of_nil. tauto.
  - apply foldl_sight_NoDup, NoDup_nil_2.
Qed.

Lemma upsertAll_ids evs acc :
  device_id <$> upsertAll evs acc
  = foldl sight (device_id <$> acc) (device_id <$> evs).
Proof.
  revert acc. induction evs as [|e evs IH]; intros acc; simpl; [done|].
  unfold upsertAll in *. simpl. by rewrite IH, updateDevices_ids.
Qed.

Lemma latest_snoc_same i evs e :
  device_id e = i → latest i (evs ++ [e]) = Some e.
Proof.
  intros H. unfold latest. rewrite filter_app, filter_cons_True by done.
  by rewrite filter_nil, last_snoc.
Qed.

Lemma latest_snoc_other i evs e :
  device_id e ≠ i → latest i (evs ++ [e]) = latest i evs.
Proof.
  intros H. unfold latest. rewrite filter_app, filter_cons_False by done.
  by rewrite filter_nil, app_nil_r.
Qed.

Lemma upsertAll_latest evs :
  Forall (λ d, latest (device_id d) evs = Some d) (upsertAll evs []).
Proof.
  induction evs as [|e evs IH] using rev_ind; [constructor|].
  unfold upsertAll in *. rewrite foldl_app. simpl.
  set (res := foldl (λ l d, updateDevices d l) [] evs) in *.
  assert (Hnd : NoDup (device_id <$> res)).
  { pose proof (upsertAll_ids evs []) as E. unfold upsertAll in E.
    fold res in E. rewrite E. apply foldl_sight_NoDup, NoDup_nil_2. }
  rewrite Forall_forall in IH. apply Forall_forall. intros d Hd.
  unfold updateDevices in Hd.
  set (p := λ x : Device, String.eqb (device_id x) (device_id e)) in *.
  destruct (Z.eqb_spec (findIndex p res) (-1)) as [E|E]; simpl in Hd.
  - apply findIndex_none in E. rewrite Forall_forall in E.
    apply elem_of_app in Hd as [Hd|Hd].
    + rewrite latest_snoc_other; [by apply IH|].
      specialize (E d Hd). unfold p in E. apply String.eqb_neq in E. congruence.
    + apply list_elem_of_singleton in Hd. subst. by apply latest_snoc_same.
  - destruct (findIndex_some p res E) as (x & Hx & Hp).
    unfold p in Hp. apply String.eqb_eq in Hp.
    apply list_elem_of_lookup in Hd as (j & Hj).
    destruct (decide (j = Z.to_nat (findIndex p res))) as [->|Hne].
    + rewrite list_lookup_insert_eq in Hj by (by eapply lookup_lt_Some).
      inversion Hj; subst. by apply latest_snoc_same.
    + rewrite list_lookup_insert_ne in Hj by done.
      rewrite latest_snoc_other; [apply IH; by eapply list_elem_of_lookup_2|].
      intros Heq. apply Hne.
      eapply NoDup_lookup; [exact Hnd| |].
      * rewrite list_lookup_fmap, Hj. done.
      * rewrite list_lookup_fmap, Hx. simpl. by rewrite Hp, Heq.
Qed.

Lemma discover_devices events s :
  devices (discover events s) = upsertAll events (devices s).
Proof.
  revert s. induction events as [|e events IH]; intros s; [done|].
  unfold discover, upsertAll in *. cbn [foldl]. rewrite IH.
  by destruct s.
Qed.

(** C5.  After a scan has emptied the list, a run of discovery events leaves
    one entry per distinct identity: as many entries as there are identities,
    in the order of first sighting, without duplicates, each entry being the
    most recent event of its identity. *)
Theorem discovery_deduplicates events s :
  let found := devices (discover events (setDevices (λ _, []) s)) in
  length found = size (list_to_set (device_id <$> events) : gset string)
  ∧ device_id <$> found = firstSightings (device_id <$> events)
  ∧ NoDup (device_id <$> found)
  ∧ Forall (λ d, latest (device_id d) events = Some d) found.
Proof.
  intros found.
  assert (found = upsertAll events []) as ->.
  { unfold found. rewrite discover_devices. by destruct s. }
  assert (device_id <$> upsertAll events []
          = firstSightings (device_id <$> events)) as Hids
    by apply upsertAll_ids.
  split_and!.
  - rewrite <- firstSightings_length, <- Hids. by rewrite length_fmap.
  - done.
  - rewrite Hids. apply foldl_sight_NoDup, NoDup_nil_2.
  - apply upsertAll_latest.
Qed.

(** ** The radio *)

Lemma updateConnectionStatus_stops_scan env s :
  r_isScanning env = true →
  let s' := updateConnectionStatusFromBluetoothState env PoweredOff s in
  isScanning s' = false
  ∧ connectionStatus s' = BluetoothOff
  ∧ devices s' = devices s
  ∧ match scanTimeoutRef s with
    | Some t => timers s' !! t = None
    | None => True
    end.
Proof.
  intros H. unfold updateConnectionStatusFromBluetoothState. rewrite H.
  destruct s as [? ? ? ? ? ? ? ? ? [] ? [t|] ? ? ? ? ? ? ? ?]; simpl;
    split_and!; try reflexivity; try done; apply lookup_delete_eq.
Qed.

Lemma radioStateChanged_mount_listener h newState s :
  listeners s = [(h, StateListener (renderOf initialComponent))] →
  radioStateChanged newState s
  = updateConnectionStatusFromBluetoothState (renderOf initialComponent)
      newState (setBluetoothState newState s).
Proof.
  intros H. unfold radioStateChanged, liveListener. rewrite H.
  cbn [foldl snd fst]. unfold stateListener.
  destruct s; simpl in *. subst. simpl. by rewrite Nat.eqb_refl.
Qed.

(** C8.  After mounting, starting a scan and three discovery events, the
    adapter reports PoweredOff.  The status becomes 'Bluetooth Off' and the
    device list is unchanged, but the scan is not stopped: [isScanning] and
    the adapter's scan stay on and the auto-stop timer stays pending.  The
    listener was registered by the mount effect, so the [isScanning] it tests
    is the one of the first render. *)
Theorem radio_off_leaves_scan_running :
  let s1 := discover [peripheralA; peripheralB; peripheralA'] scanning in
  let s2 := radioStateChanged PoweredOff s1 in
  isScanning s1 = true
  ∧ scanTimeoutRef s1 = Some 1
  ∧ timers s1 !! 1 = Some (mkTimer 20000 ScanTimeout)
  ∧ connectionStatus s2 = BluetoothOff
  ∧ devices s2 = devices s1
  ∧ isScanning s2 = true
  ∧ deviceScan s2 = true
  ∧ timers s2 !! 1 = Some (mkTimer 20000 ScanTimeout).
Proof. vm_compute. done. Qed.

(** ** Subscribing *)

Lemma subscribeCharacteristic_step service s r c :
  subscribeCharacteristic service (s, r) c
  = if isNotifiable (characteristic c) then
      if monitorThrows c then
        (s, mkAttachReport (notificationCount r)
              (monitorCalls r ++ [entryUuid (service, c)]))
      else
        (registerMonitor s (service, c),
         mkAttachReport (S (notificationCount r))
           (monitorCalls r ++ [entryUuid (service, c)]))
    else (s, r).
Proof.
  unfold subscribeCharacteristic, registerMonitor, entryUuid. simpl.
  by destruct (isNotifiable (characteristic c)), (monitorThrows c).
Qed.

Lemma subscribeCharacteristics_fold service cs s r :
  let ns := (λ c, (service, c))
              <$> filter (λ c, isNotifiable (characteristic c) = true) cs in
  let es := filter (λ e : string * CharacteristicEntry,
                      monitorThrows e.2 = false) ns in
  foldl (subscribeCharacteristic service) (s, r) cs
  = (registerMonitors es s,
     mkAttachReport (notificationCount r + length es)
       (monitorCalls r ++ (entryUuid <$> ns))).
Proof.
  revert s r. induction cs as [|c cs IH]; intros s r; cbn [foldl].
  - destruct r. simpl. by rewrite Nat.add_0_r, app_nil_r.
  - rewrite subscribeCharacteristic_step.
    destruct (isNotifiable (characteristic c)) eqn:Hn.
    + rewrite filter_cons_True by done. rewrite fmap_cons.
      destruct (monitorThrows c) eqn:Ht.
      * rewrite IH. rewrite filter_cons_False by (simpl; congruence).
        cbn [notificationCount monitorCalls fmap list_fmap].
        by rewrite <- app_assoc.
      * rewrite IH. rewrite filter_cons_True by done.
        cbn [notificationCount monitorCalls length].
        rewrite fmap_cons, <- app_assoc. simpl.
        f_equal. f_equal. lia.
    + rewrite filter_cons_False by congruence. apply IH.
Qed.

Lemma registerMonitors_app es1 es2 s :
  registerMonitors (es1 ++ es2) s = registerMonitors es2 (registerMonitors es1 s).
Proof. apply foldl_app. Qed.

Lemma subscribeServices_fold services s r :
  foldl subscribeService (s, r) services
  = (registerMonitors (established services) s,
     mkAttachReport (notificationCount r + length (established services))
       (monitorCalls r ++ (entryUuid <$> notifiable services))).
Proof.
  revert s r. induction services as [|svc services IH]; intros s r;
    cbn [foldl].
  - destruct r. simpl. by rewrite Nat.add_0_r, app_nil_r.
  - assert (Hn : notifiable (svc :: services)
                 = notifiableOf svc ++ notifiable services) by done.
    unfold established in *. rewrite Hn, filter_app. clear Hn.
    unfold subscribeService at 2, notifiableOf.
    destruct (service_characteristics svc) as [cs|err].
    + rewrite subscribeCharacteristics_fold, IH.
      cbn [notificationCount monitorCalls].
      rewrite registerMonitors_app, length_app, fmap_app, <- app_assoc.
      f_equal. f_equal. lia.
    + apply IH.
Qed.

Lemma registerMonitors_subscriptionsRef es s :
  subscriptionsRef (registerMonitors es s)
  = subscriptionsRef s ++ seq (nextHandle s) (length es).
Proof.
  revert s. induction es as [|e es IH]; intros s; simpl.
  - by rewrite app_nil_r.
  - unfold registerMonitors in *. simpl. rewrite IH.
    destruct s; simpl. by rewrite <- app_assoc.
Qed.

Lemma registerMonitors_listeners es s :
  listeners (registerMonitors es s)
  = listeners s
    ++ zip (seq (nextHandle s) (length es))
         ((λ e, CharacteristicMonitor e.1 (entryUuid e)) <$> es).
Proof.
  revert s. induction es as [|e es IH]; intros s; simpl.
  - by rewrite app_nil_r.
  - unfold registerMonitors in *. simpl. rewrite IH.
    destruct s; simpl. by rewrite <- app_assoc.
Qed.

(** C7.  When [services()] resolves, [monitor] is called on every notifiable
    characteristic of every service whose [characteristics()] resolved,
    whether or not an earlier [monitor] threw; the logged count is the number
    of calls that returned a subscription, and exactly that many handles are
    appended to [subscriptionsRef] and registered with the adapter. *)
Theorem subscription_failures_skipped device services s :
  let result := subscribeToCharacteristics device (Resolved services) s in
  result.2 = Some (mkAttachReport (length (established services))
                     (entryUuid <$> notifiable services))
  ∧ result.1 = registerMonitors (established services) s
  ∧ subscriptionsRef result.1
    = subscriptionsRef s ++ seq (nextHandle s) (length (established services))
  ∧ length (listeners result.1)
    = length (listeners s) + length (established services).
Proof.
  intros result. unfold result, subscribeToCharacteristics.
  rewrite subscribeServices_fold. simpl. split_and!; try done.
  - apply registerMonitors_subscriptionsRef.
  - rewrite registerMonitors_listeners, length_app, length_zip, length_seq,
      length_fmap. lia.
Qed.

Lemma registerMonitors_closed es s :
  registerMonitors es s
  = setSubscriptionsRef
      (subscriptionsRef s ++ seq (nextHandle s) (length es))
      (setListeners
         (listeners s ++ zip (seq (nextHandle s) (length es)) (monitorOf <$> es))
         (nextHandle s + length es) s).
Proof.
  revert s. induction es as [|e es IH]; intros s.
  - destruct s. unfold setSubscriptionsRef, setListeners. simpl.
    by rewrite !app_nil_r, Nat.add_0_r.
  - unfold registerMonitors in *. cbn [foldl]. rewrite IH.
    destruct s. unfold setSubscriptionsRef, setListeners, registerMonitor.
    simpl. rewrite <- !app_assoc. simpl.
    by rewrite Nat.add_succ_r.
Qed.

Lemma subscribeToCharacteristics_store device services s :
  (subscribeToCharacteristics device services s).1
  = registerMonitors (establishedOf services) s.
Proof.
  destruct services as [services|err]; [|done].
  unfold subscribeToCharacteristics. by rewrite subscribeServices_fold.
Qed.

Lemma isCancellation_classify error :
  isCancellation error
  = match classify error with
    | OperationCancelled => true
    | UnknownAdapterError => includes (rawMessage error) "cancelled"
    | _ => false
    end.
Proof.
  unfold isCancellation, errorMessageOf, classify.
  destruct (includes (rawMessage error) "timeout"); [reflexivity|].
  destruct (includes (rawMessage error) "Device not found"); [reflexivity|].
  destruct (includes (rawMessage error) "Device disconnected"); [reflexivity|].
  destruct (includes (rawMessage error) "Operation was cancelled"); reflexivity.
Qed.

(** C6, as amended.  A [connectToDevice] that ends in its [catch] block
    sets the status to 'Connection Failed' right after 'Connecting...' and
    resets the connected device.  A reconnect is scheduled exactly when the
    render's [autoReconnect] is set and the failure does not count as a
    cancellation; it counts as one when it takes the branch 'Operation was
    cancelled', and also when it takes no branch and its message contains
    'cancelled'.  Scheduling arms a timer of 5000 ms for the same device and
    moves the status on to 'Reconnecting...'; otherwise no timer is armed
    and the status stays 'Connection Failed'. *)
Theorem connect_failure_policy env device attempt error s :
  bleManagerRef s = true →
  failureOf attempt = Some error →
  let s' := connectToDevice env device attempt s in
  let scheduled := r_autoReconnect env && negb (countsAsCancelled error) in
  statusLog s'
  = (if scheduled then [Reconnecting] else [])
      ++ ConnectionFailed :: Connecting :: statusLog s
  ∧ connectionStatus s'
    = (if scheduled then Reconnecting else ConnectionFailed)
  ∧ connectedDevice s' = None
  ∧ isConnected s' = false
  ∧ (if scheduled then
       reconnectTimeoutRef s' = Some (nextTimer s)
       ∧ timers s' !! nextTimer s
         = Some (mkTimer 5000 (ReconnectTimeout env device))
     else
       reconnectTimeoutRef s' = reconnectTimeoutRef s
       ∧ timers s' = timers (beginConnect env s)
       ∧ nextTimer s' = nextTimer s).
Proof.
  intros Hble Hfail s' scheduled.
  assert (s' = connectFailed env device error (beginConnect env s)) as ->.
  { unfold s', connectToDevice. rewrite Hble. simpl.
    destruct attempt; simpl in Hfail; try discriminate;
      by inversion Hfail. }
  unfold connectFailed. fold (isCancellation error).
  rewrite isCancellation_classify. fold (countsAsCancelled error).
  fold scheduled.
  unfold beginConnect, stopScan.
  destruct s as [? ? ? ? ? ? ? ? ? ? ? [t|] ? ? ? ? ? ? ? ?];
    simpl in Hble; subst;
    destruct scheduled, (r_isScanning env); simpl;
    split_and!; try reflexivity; apply lookup_insert_eq.
Qed.

(** The premises of [connect_failure_policy] hold for a first connect right
    after mounting: one that times out is retried, one that was cancelled is
    not. *)
Lemma connect_failure_policy_witness :
  bleManagerRef mounted = true
  ∧ r_autoReconnect (renderOf mounted) = true
  ∧ connectionStatus reconnectingA = Reconnecting
  ∧ connectionStatus
      (connectToDevice (renderOf mounted) peripheralA
         (ConnectRejected cancelledError) mounted)
    = ConnectionFailed.
Proof.
  split; [reflexivity|]. split; [reflexivity|].
  destruct (connect_failure_policy (renderOf mounted) peripheralA
              (ConnectRejected timeoutError) timeoutError mounted
              eq_refl eq_refl) as (_ & H & _).
  destruct (connect_failure_policy (renderOf mounted) peripheralA
              (ConnectRejected cancelledError) cancelledError mounted
              eq_refl eq_refl) as (_ & H' & _).
  split; [exact H | exact H'].
Defined.

(** C6 fails as stated.  The failure 'Pairing cancelled by user' takes no
    branch of the chain, so it is not classified as a cancellation; with
    [autoReconnect] set no reconnect is scheduled for it, because its
    message contains 'cancelled'.  And an attempt for which a reconnect is
    scheduled does not end in 'Connection Failed': the status moves on to
    'Reconnecting...'. *)
Lemma unclassified_cancelled_not_retried :
  let s' := connectToDevice (renderOf mounted) peripheralA
              (ConnectRejected pairingCancelled) mounted in
  classify pairingCancelled = UnknownAdapterError
  ∧ r_autoReconnect (renderOf mounted) = true
  ∧ connectionStatus s' = ConnectionFailed
  ∧ reconnectTimeoutRef s' = None
  ∧ timers s' = timers mounted
  ∧ classify timeoutError = ConnectTimeout
  ∧ connectionStatus reconnectingA = Reconnecting
  ∧ take 3 (statusLog reconnectingA)
    = [Reconnecting; ConnectionFailed; Connecting].
Proof. vm_compute. done. Qed.

(** ** Connecting *)

Lemma connectToDevice_unfold env device attempt s :
  bleManagerRef s = true →
  connectToDevice env device attempt s
  = match attempt with
    | IsConnectedRejected e | ConnectRejected e | DiscoveryRejected e =>
        connectFailed env device e (beginConnect env s)
    | AlreadyConnected services =>
        registerMonitors (establishedOf services)
          (connectedStore device (beginConnect env s))
    | Linked connectedDev services =>
        registerMonitors (establishedOf services)
          (setupConnectionMonitoring env connectedDev
             (connectedStore connectedDev (beginConnect env s)))
    end.
Proof.
  intros Hble. unfold connectToDevice. rewrite Hble. cbn [negb].
  destruct attempt; rewrite ?subscribeToCharacteristics_store; reflexivity.
Qed.

Lemma TimerFrame_refl t s : TimerFrame t s s.
Proof. by split. Qed.

Lemma TimerFrame_trans t s1 s2 s3 :
  TimerFrame t s1 s2 → TimerFrame t s2 s3 → TimerFrame t s1 s3.
Proof.
  intros [] []. split; [congruence | congruence | lia].
Qed.

Lemma beginConnect_frame env t s :
  scanTimeoutRef s ≠ Some t → TimerFrame t s (beginConnect env s).
Proof.
  intros Hscan. unfold beginConnect, stopScan.
  destruct s as [? ? ? ? ? ? ? ? ? [] ? [t0|] ? ? ? ? ? ? ? ?];
    destruct (r_isScanning env); simpl in *; split; simpl;
    rewrite ?lookup_delete_ne by congruence; done.
Qed.

Lemma connectFailed_frame env device e t s :
  t < nextTimer s → TimerFrame t s (connectFailed env device e s).
Proof.
  intros Hlt. unfold connectFailed. fold (isCancellation e).
  destruct (r_autoReconnect env && negb (isCancellation e));
    destruct s; simpl in *; split; simpl;
    rewrite ?lookup_insert_ne by lia; done || lia.
Qed.

Lemma registerMonitors_frame es t s : TimerFrame t s (registerMonitors es s).
Proof. rewrite registerMonitors_closed. by destruct s. Qed.

Lemma connectedStore_frame device t s : TimerFrame t s (connectedStore device s).
Proof. by destruct s. Qed.

Lemma setupConnectionMonitoring_frame env device t s :
  TimerFrame t s (setupConnectionMonitoring env device s).
Proof. by destruct s. Qed.

Lemma connectToDevice_frame env device attempt t s :
  t < nextTimer s →
  scanTimeoutRef s ≠ Some t →
  TimerFrame t s (connectToDevice env device attempt s).
Proof.
  intros Hlt Hscan. destruct (bleManagerRef s) eqn:Hble.
  - rewrite connectToDevice_unfold by done.
    pose proof (beginConnect_frame env t s Hscan) as Hb.
    eapply TimerFrame_trans; [exact Hb|].
    destruct attempt.
    + apply connectFailed_frame. destruct Hb. lia.
    + eapply TimerFrame_trans;
        [apply connectedStore_frame | apply registerMonitors_frame].
    + apply connectFailed_frame. destruct Hb. lia.
    + apply connectFailed_frame. destruct Hb. lia.
    + eapply TimerFrame_trans; [apply connectedStore_frame|].
      eapply TimerFrame_trans;
        [apply setupConnectionMonitoring_frame | apply registerMonitors_frame].
  - unfold connectToDevice. rewrite Hble. apply TimerFrame_refl.
Qed.

Lemma beginConnect_statusLog env s :
  statusLog (beginConnect env s) = Connecting :: statusLog s.
Proof.
  unfold beginConnect, stopScan.
  by destruct s as [? ? ? ? ? ? ? ? ? [] ? [t0|] ? ? ? ? ? ? ? ?];
    destruct (r_isScanning env).
Qed.

Lemma connectToDevice_statusLog env device attempt s :
  bleManagerRef s = true →
  ∃ later, statusLog (connectToDevice env device attempt s)
           = later ++ Connecting :: statusLog s.
Proof.
  intros Hble. rewrite connectToDevice_unfold by done.
  rewrite <- beginConnect_statusLog with (env := env).
  generalize (beginConnect env s) as s0. intros s0.
  destruct attempt; rewrite ?registerMonitors_closed;
    unfold connectFailed; try fold (isCancellation err);
    try destruct (r_autoReconnect env && negb (isCancellation err));
    destruct s0; simpl;
    first [ by exists [Connected] | by exists [ConnectionFailed]
          | by exists [Reconnecting; ConnectionFailed] ].
Qed.

(** C1, as amended.  A [connectToDevice] started while a reconnect timer is
    pending leaves that timer pending; when the timer fires it runs
    [connectToDevice] for the device it was scheduled for, and the status
    passes through 'Connecting...' again. *)
Theorem connect_keeps_reconnect_timer
  env device attempt envG deviceG attemptG t s :
  bleManagerRef s = true →
  timers s !! t = Some (mkTimer 5000 (ReconnectTimeout envG deviceG)) →
  t < nextTimer s →
  scanTimeoutRef s ≠ Some t →
  let s1 := connectToDevice env device attempt s in
  timers s1 !! t = Some (mkTimer 5000 (ReconnectTimeout envG deviceG))
  ∧ fireTimer t attemptG s1
    = connectToDevice envG deviceG attemptG (clearTimeout t s1)
  ∧ ∃ later, statusLog (fireTimer t attemptG s1)
             = later ++ Connecting :: statusLog s1.
Proof.
  intros Hble Ht Hlt Hscan s1.
  destruct (connectToDevice_frame env device attempt t s Hlt Hscan)
    as [Hb Htm _]. fold s1 in Hb, Htm.
  assert (timers s1 !! t = Some (mkTimer 5000 (ReconnectTimeout envG deviceG)))
    as Hpending by congruence.
  assert (fireTimer t attemptG s1
          = connectToDevice envG deviceG attemptG (clearTimeout t s1)) as Hfire.
  { unfold fireTimer. by rewrite Hpending. }
  split_and!; [done | done |]. rewrite Hfire.
  destruct (connectToDevice_statusLog envG deviceG attemptG (clearTimeout t s1))
    as [later Hlater].
  - destruct s1. simpl in *. congruence.
  - exists later. rewrite Hlater. by destruct s1.
Qed.

(** The premises of [connect_keeps_reconnect_timer] hold when B is pressed
    while the reconnect to A is pending. *)
Lemma connect_keeps_reconnect_timer_witness :
  timers connectedB !! 1
  = Some (mkTimer 5000 (ReconnectTimeout (renderOf mounted) peripheralA)).
Proof.
  apply (connect_keeps_reconnect_timer (renderOf reconnectingA) peripheralB
           (Linked peripheralB (Resolved sampleServices))
           (renderOf mounted) peripheralA
           (Linked peripheralA (Resolved sampleServices)) 1 reconnectingA).
  - reflexivity.
  - reflexivity.
  - vm_compute. lia.
  - vm_compute. discriminate.
Defined.

(** C1 fails as stated: while the reconnect to A is pending, a connect to B
    succeeds; the timer for A is still pending afterwards, and when it fires
    the component connects to A and replaces B as the connected device. *)
Lemma new_connect_leaves_stale_timer :
  connectionStatus reconnectingA = Reconnecting
  ∧ reconnectTimeoutRef reconnectingA = Some 1
  ∧ timers reconnectingA !! 1
    = Some (mkTimer 5000 (ReconnectTimeout (renderOf mounted) peripheralA))
  ∧ connectedDevice connectedB = Some peripheralB
  ∧ connectionStatus connectedB = Connected
  ∧ timers connectedB !! 1
    = Some (mkTimer 5000 (ReconnectTimeout (renderOf mounted) peripheralA))
  ∧ connectedDevice
      (fireTimer 1 (Linked peripheralA (Resolved sampleServices)) connectedB)
    = Some peripheralA
  ∧ statusLog
      (fireTimer 1 (Linked peripheralA (Resolved sampleServices)) connectedB)
    = Connected :: Connecting :: statusLog connectedB.
Proof. vm_compute. done. Qed.

(** ** The short-circuit of an already connected peripheral *)

Lemma no_listener_no_callback deviceId error disconnectedDevice l s :
  existsb (λ hl, isDisconnectListenerOf deviceId hl.2) l = false →
  foldl (λ s (hl : nat * Listener),
           match hl.2, liveListener hl.1 s with
           | DisconnectListener env device, Some _ =>
               if String.eqb (device_id device) deviceId then
                 disconnectedCallback env device error disconnectedDevice s
               else s
           | _, _ => s
           end) s l = s.
Proof.
  induction l as [|[h x] l IH]; intros H; [done|].
  simpl in H. apply orb_false_iff in H as [Hx Hl]. cbn [foldl fst snd].
  destruct x as [env|env device|sv ch]; simpl in Hx.
  - by apply IH.
  - rewrite Hx. destruct (liveListener h s); by apply IH.
  - by apply IH.
Qed.

Lemma peripheralDisconnected_unmonitored deviceId error disconnectedDevice s :
  monitored deviceId s = false →
  peripheralDisconnected deviceId error disconnectedDevice s = s.
Proof. apply no_listener_no_callback. Qed.

Lemma monitors_not_disconnect_listeners deviceId hs es :
  existsb (λ hl : nat * Listener, isDisconnectListenerOf deviceId hl.2)
    (zip hs (monitorOf <$> es)) = false.
Proof.
  revert hs. induction es as [|e es IH]; intros [|h hs]; simpl; auto.
Qed.

Lemma registerMonitors_monitored deviceId es s :
  monitored deviceId (registerMonitors es s) = monitored deviceId s.
Proof.
  unfold monitored. rewrite registerMonitors_listeners, existsb_app.
  fold monitorOf. rewrite (monitors_not_disconnect_listeners deviceId).
  apply orb_false_r.
Qed.

Lemma beginConnect_listeners env s :
  listeners (beginConnect env s) = listeners s
  ∧ subscriptionsRef (beginConnect env s) = subscriptionsRef s
  ∧ nextHandle (beginConnect env s) = nextHandle s.
Proof.
  unfold beginConnect, stopScan.
  by destruct s as [? ? ? ? ? ? ? ? ? [] ? [t0|] ? ? ? ? ? ? ? ?];
    destruct (r_isScanning env).
Qed.

(** C10, as amended.  When [isConnected()] resolves to true,
    [connectToDevice] goes to 'Connected', records the device and subscribes
    to its characteristics, and registers no disconnect listener.  If none
    was registered for the peripheral before, a later drop of the link
    changes nothing in the store: no subscription is released, the status
    stays, no reconnect is scheduled. *)
Theorem already_connected_not_monitored
  env device services error disconnectedDevice s :
  bleManagerRef s = true →
  monitored (device_id device) s = false →
  let s1 := connectToDevice env device (AlreadyConnected services) s in
  connectionStatus s1 = Connected
  ∧ connectedDevice s1 = Some device
  ∧ isConnected s1 = true
  ∧ subscriptionsRef s1
    = subscriptionsRef s
      ++ seq (nextHandle s) (length (establishedOf services))
  ∧ listeners s1
    = listeners s
      ++ zip (seq (nextHandle s) (length (establishedOf services)))
           (monitorOf <$> establishedOf services)
  ∧ monitored (device_id device) s1 = false
  ∧ peripheralDisconnected (device_id device) error disconnectedDevice s1 = s1.
Proof.
  intros Hble Hmon s1.
  assert (s1 = registerMonitors (establishedOf services)
                 (connectedStore device (beginConnect env s))) as Hs1.
  { unfold s1. by rewrite connectToDevice_unfold. }
  destruct (beginConnect_listeners env s) as (Hl & Hsub & Hnext).
  assert (monitored (device_id device) s1 = false) as Hmon1.
  { rewrite Hs1, registerMonitors_monitored. unfold monitored in *.
    rewrite <- Hl in Hmon. by destruct (beginConnect env s). }
  split_and!.
  - rewrite Hs1, registerMonitors_closed. by destruct (beginConnect env s).
  - rewrite Hs1, registerMonitors_closed. by destruct (beginConnect env s).
  - rewrite Hs1, registerMonitors_closed. by destruct (beginConnect env s).
  - rewrite Hs1, registerMonitors_subscriptionsRef, <- Hsub, <- Hnext.
    by destruct (beginConnect env s).
  - rewrite Hs1, registerMonitors_listeners, <- Hl, <- Hnext.
    by destruct (beginConnect env s).
  - done.
  - by apply peripheralDisconnected_unmonitored.
Qed.

(** The premises of [already_connected_not_monitored] hold right after
    mounting. *)
Lemma already_connected_not_monitored_witness :
  peripheralDisconnected (device_id peripheralA) None None
    (connectToDevice (renderOf mounted) peripheralA
       (AlreadyConnected (Resolved sampleServices)) mounted)
  = connectToDevice (renderOf mounted) peripheralA
      (AlreadyConnected (Resolved sampleServices)) mounted.
Proof.
  apply (already_connected_not_monitored (renderOf mounted) peripheralA
           (Resolved sampleServices) None None mounted);
    reflexivity.
Defined.

(** C10 fails as stated.  A connect to A times out and a reconnect is
    scheduled; a second press on A links and registers the disconnect
    listener; the reconnect timer, which that connect did not cancel,
    expires and finds A already connected.  The session it short-circuits
    to is monitored by the listener of the earlier connect: a drop of the
    link releases every subscription, resets the session and schedules a
    reconnect. *)
Lemma earlier_listener_ends_short_circuit_session :
  let events :=
    [ PressScan PoweredOn true false;
      ScanResult None (Some peripheralA);
      PressDevice 0 (ConnectRejected timeoutError);
      PressDevice 0 (Linked peripheralA (Resolved sampleServices)) ] in
  let env := renderOf (run PoweredOn true (take 2 events)) in
  let env' := renderOf (run PoweredOn true (take 3 events)) in
  let s := run PoweredOn true events in
  let s1 := fireTimer 2 (AlreadyConnected (Resolved sampleServices)) s in
  let s2 := peripheralDisconnected "AA:01" None None s1 in
  timers s !! 2 = Some (mkTimer 5000 (ReconnectTimeout env peripheralA))
  ∧ s1 = connectToDevice env peripheralA
           (AlreadyConnected (Resolved sampleServices)) (clearTimeout 2 s)
  ∧ connectionStatus s1 = Connected
  ∧ connectedDevice s1 = Some peripheralA
  ∧ monitored "AA:01" s1 = true
  ∧ subscriptionsRef s1 = [2; 3; 4; 5; 6; 7; 8]
  ∧ connectionStatus s2 = Reconnecting
  ∧ connectedDevice s2 = None
  ∧ subscriptionsRef s2 = []
  ∧ statusLog s2 = Reconnecting :: Disconnected :: statusLog s1
  ∧ timers s2 !! 3 = Some (mkTimer 5000 (ReconnectTimeout env' peripheralA)).
Proof. vm_compute. done. Qed.

(** The sibling path arms the monitoring, and a drop is then acted upon. *)
Lemma linked_is_monitored :
  let s1 := connectToDevice (renderOf mounted) peripheralA
              (Linked peripheralA (Resolved sampleServices)) mounted in
  let s2 := peripheralDisconnected (device_id peripheralA) None None s1 in
  monitored (device_id peripheralA) s1 = true
  ∧ length (subscriptionsRef s1) = 4
  ∧ subscriptionsRef s2 = []
  ∧ connectionStatus s2 = Reconnecting
  ∧ statusLog s2 = Reconnecting :: Disconnected :: statusLog s1
  ∧ reconnectTimeoutRef s2 = Some 1.
Proof. vm_compute. done. Qed.

(** ** Disconnecting *)

Lemma filter_all {A} (P : A → Prop) `{∀ x, Decision (P x)} (l : list A) :
  (∀ x, P x) → filter P l = l.
Proof.
  intros HP. induction l as [|x l IH]; [done|].
  by rewrite filter_cons_True, IH.
Qed.

Lemma removeListeners_closed hs s :
  removeListeners hs s
  = setListeners (filter (λ hl, hl.1 ∉ hs) (listeners s)) (nextHandle s) s.
Proof.
  revert s. induction hs as [|h hs IH]; intros s.
  - destruct s. unfold setListeners. simpl. f_equal.
    symmetry. apply filter_all. intros x. apply not_elem_of_nil.
  - unfold removeListeners in *. cbn [foldl]. rewrite IH.
    destruct s. unfold setListeners, removeListener. simpl. f_equal.
    rewrite list_filter_filter. apply list_filter_iff. intros [h' x]. simpl.
    rewrite not_elem_of_cons. tauto.
Qed.

Lemma lookupListener_removed (hs : list nat) h l :
  h ∈ hs → lookupListener h (filter (λ hl, hl.1 ∉ hs) l) = None.
Proof.
  intros Hh. induction l as [|[h' x] l IH]; [done|].
  destruct (decide (h' ∈ hs)) as [Hp|Hp].
  - by rewrite filter_cons_False by (simpl; tauto).
  - rewrite filter_cons_True by done. simpl.
    destruct (Nat.eqb_spec h' h); [by subst|done].
Qed.

Lemma clearSubscriptions_closed s :
  clearSubscriptions s
  = setSubscriptionsRef []
      (setListeners (filter (λ hl, hl.1 ∉ subscriptionsRef s) (listeners s))
         (nextHandle s) s).
Proof.
  unfold clearSubscriptions. fold (removeListeners (subscriptionsRef s) s).
  by rewrite removeListeners_closed.
Qed.

Lemma clearSubscriptions_released s :
  Forall (λ h, liveListener h (clearSubscriptions s) = None)
    (subscriptionsRef s).
Proof.
  apply Forall_forall. intros h Hh. rewrite clearSubscriptions_closed.
  unfold liveListener. destruct s. simpl in *.
  by apply lookupListener_removed.
Qed.

Lemma disconnectRelease_store s :
  listeners (disconnectRelease s)
  = filter (λ hl, hl.1 ∉ subscriptionsRef s) (listeners s)
  ∧ subscriptionsRef (disconnectRelease s) = []
  ∧ timers (disconnectRelease s) = clearRef (reconnectTimeoutRef s) (timers s)
  ∧ connectionStatus (disconnectRelease s) = connectionStatus s
  ∧ connectedDevice (disconnectRelease s) = connectedDevice s
  ∧ isConnected (disconnectRelease s) = isConnected s
  ∧ notifications (disconnectRelease s) = notifications s.
Proof.
  unfold disconnectRelease. rewrite clearSubscriptions_closed.
  destruct s as [? ? ? ? ? ? ? ? ? ? [tr|] ? ? ? ? ? ? ? ? ?];
    repeat split; reflexivity.
Qed.

Lemma disconnectRelease_released s :
  Forall (λ h, liveListener h (disconnectRelease s) = None)
    (subscriptionsRef s).
Proof.
  unfold disconnectRelease.
  set (s0 := match reconnectTimeoutRef s with
             | Some t => clearTimeout t s
             | None => s
             end).
  replace (subscriptionsRef s) with (subscriptionsRef s0)
    by (unfold s0; by destruct s as [? ? ? ? ? ? ? ? ? ? [t|] ? ? ? ? ? ? ? ? ?]).
  apply clearSubscriptions_released.
Qed.

Lemma disconnectSettle_resolved u s :
  let s' := disconnectSettle (Resolved u) s in
  notifications s' = []
  ∧ connectionStatus s' = Disconnected
  ∧ connectedDevice s' = None
  ∧ isConnected s' = false
  ∧ subscriptionsRef s' = subscriptionsRef s
  ∧ listeners s' = listeners s
  ∧ timers s' = timers s.
Proof. destruct s. repeat split; reflexivity. Qed.

Lemma disconnect_returns cancel s :
  connectedDevice s = None → disconnect (renderOf s) cancel s = s.
Proof.
  intros H. unfold disconnect, disconnectReturns.
  cbn [renderOf r_connectedDevice]. rewrite H.
  by destruct (bleManagerRef s).
Qed.

(** C2, as amended.  With no connected device recorded (or no manager),
    [disconnect] returns at once and changes nothing.  With one, its first
    stretch cancels the timer in [reconnectTimeoutRef], empties
    [subscriptionsRef] and removes every listener that was in it, and leaves
    the log, the status and the connected device as they were.  Its second
    stretch runs in the store [later] that it finds when
    [cancelDeviceConnection] has settled: when the call resolved it empties
    the log, clears the connected device and sets the status to
    'Disconnected', leaves the subscriptions, the listeners and the timers
    of [later] as they are, and a further [disconnect] then changes nothing;
    when the call rejected it changes nothing.  When the second stretch
    finds the store as the first one left it, no subscription is recorded
    after it. *)
Theorem disconnect_releases_then_settles cancel s later :
  let s1 := disconnectRelease s in
  let s2 := disconnectSettle cancel later in
  match connectedDevice s with
  | None => disconnect (renderOf s) cancel s = s
  | Some _ =>
      if bleManagerRef s then
        disconnect (renderOf s) cancel s = disconnectSettle cancel s1
      else disconnect (renderOf s) cancel s = s
  end
  ∧ match reconnectTimeoutRef s with
    | Some t => timers s1 !! t = None
    | None => timers s1 = timers s
    end
  ∧ subscriptionsRef s1 = []
  ∧ Forall (λ h, liveListener h s1 = None) (subscriptionsRef s)
  ∧ notifications s1 = notifications s
  ∧ connectionStatus s1 = connectionStatus s
  ∧ connectedDevice s1 = connectedDevice s
  ∧ match cancel with
    | Resolved _ =>
        notifications s2 = []
        ∧ connectionStatus s2 = Disconnected
        ∧ connectedDevice s2 = None
        ∧ isConnected s2 = false
        ∧ subscriptionsRef s2 = subscriptionsRef later
        ∧ listeners s2 = listeners later
        ∧ timers s2 = timers later
        ∧ disconnect (renderOf s2) cancel s2 = s2
    | Rejected _ => s2 = later
    end
  ∧ subscriptionsRef (disconnectSettle cancel s1) = [].
Proof.
  intros s1 s2.
  destruct (disconnectRelease_store s) as (_ & Hs & Ht & Hc & Hd & _ & Hn).
  fold s1 in Hs, Ht, Hc, Hd, Hn.
  assert (subscriptionsRef (disconnectSettle cancel s1) = []) as Hback.
  { destruct cancel as [u|err]; [|done].
    destruct (disconnectSettle_resolved u s1) as (_ & _ & _ & _ & H5 & _).
    by rewrite H5. }
  split_and!; try done.
  - destruct (connectedDevice s) as [d|] eqn:E;
      [|by apply disconnect_returns].
    unfold disconnect, disconnectReturns. cbn [renderOf r_connectedDevice].
    rewrite E. destruct (bleManagerRef s); [|done].
    by rewrite bool_decide_eq_true_2 by eauto.
  - rewrite Ht. destruct (reconnectTimeoutRef s) as [t|]; [|done].
    apply lookup_delete_eq.
  - apply disconnectRelease_released.
  - destruct cancel as [u|err]; [|done].
    destruct (disconnectSettle_resolved u later)
      as (H1 & H2 & H3 & H4 & H5 & H6 & H7).
    split_and!; try done. by apply disconnect_returns.
Qed.

(** C2 fails as stated, in two ways.  In 'Reconnecting...' with a pending
    reconnect timer no connected device is recorded, so [disconnect] returns
    at once; the timer stays pending and the status stays 'Reconnecting...'.
    And while [connectToDevice] awaits [subscribeToCharacteristics]
    (line 363) the store already shows the device as connected: a
    [disconnect] started then releases the disconnect listener, the walk
    over the services goes on while [cancelDeviceConnection] is awaited and
    registers its monitors, and the status 'Disconnected' is reached with
    three subscriptions recorded and registered. *)
Lemma disconnect_leaves_timer_or_monitors :
  (connectionStatus reconnectingA = Reconnecting
   ∧ reconnectTimeoutRef reconnectingA = Some 1
   ∧ timers reconnectingA !! 1
     = Some (mkTimer 5000 (ReconnectTimeout (renderOf mounted) peripheralA))
   ∧ disconnect (renderOf reconnectingA) (Resolved ()) reconnectingA
     = reconnectingA)
  ∧ let attaching :=
      setupConnectionMonitoring (renderOf mounted) peripheralA
        (connectedStore peripheralA (beginConnect (renderOf mounted) mounted)) in
    let released := disconnectRelease attaching in
    let attached :=
      (subscribeToCharacteristics peripheralA (Resolved sampleServices)
         released).1 in
    let settled := disconnectSettle (Resolved ()) attached in
    connectToDevice (renderOf mounted) peripheralA
      (Linked peripheralA (Resolved sampleServices)) mounted
    = (subscribeToCharacteristics peripheralA (Resolved sampleServices)
         attaching).1
    ∧ isConnected attaching = true
    ∧ disconnectReturns (renderOf attaching) attaching = false
    ∧ subscriptionsRef attaching = [2]
    ∧ subscriptionsRef released = []
    ∧ connectionStatus settled = Disconnected
    ∧ connectedDevice settled = None
    ∧ subscriptionsRef settled = [3; 4; 5]
    ∧ liveListener 3 settled = Some (CharacteristicMonitor "180D" "2A37").
Proof. vm_compute. done. Qed.

(** ** Numbers *)

Lemma pow2_pos e : (0 < pow2 e)%Q.
Proof. apply Qpower_0_lt. reflexivity. Qed.

Lemma pow2_Z k : (0 ≤ k)%Z → inject_Z (2 ^ k) == pow2 k.
Proof. intros Hk. unfold pow2. by rewrite Zpower_Qpower. Qed.

Lemma pow2_minus a b : pow2 (a - b) == (pow2 a / pow2 b)%Q.
Proof. unfold pow2. apply Qpower_minus. intros H. discriminate H. Qed.

Lemma pow2_plus a b : pow2 (a + b) == (pow2 a * pow2 b)%Q.
Proof. unfold pow2. apply Qpower_plus. intros H. discriminate H. Qed.

Lemma Q_as_quotient x : x == (inject_Z (Qnum x) / inject_Z (Zpos (Qden x)))%Q.
Proof.
  destruct x as [n d]. unfold Qeq, Qdiv, Qmult, Qinv, inject_Z. simpl. lia.
Qed.

Lemma pow2_succ e : pow2 (e + 1) == (2 * pow2 e)%Q.
Proof. rewrite pow2_plus. change (pow2 1) with 2%Q. ring. Qed.

Lemma pow2_quotient a b : (pow2 (a - b) * pow2 b == pow2 a)%Q.
Proof.
  rewrite pow2_minus. field. pose proof (pow2_pos b) as H. intros E.
  rewrite E in H. by apply Qlt_irrefl in H.
Qed.

Lemma Qmult_lt_cancel x y z : (0 < z)%Q → (x * z < y * z)%Q → (x < y)%Q.
Proof. intros Hz H. by apply (Qmult_lt_r x y z Hz). Qed.

Lemma Qmult_le_cancel x y z : (0 < z)%Q → (x * z <= y * z)%Q → (x <= y)%Q.
Proof. intros Hz H. by apply (Qmult_le_r x y z Hz). Qed.

(** [binade x] is the exponent of the power of two at or below [x]. *)
Lemma binade_spec x :
  (0 < x)%Q → (pow2 (binade x) <= x)%Q ∧ (x < pow2 (binade x + 1))%Q.
Proof.
  intros Hx. unfold binade.
  set (n := Qnum x). set (d := Zpos (Qden x)).
  assert (0 < n)%Z as Hn.
  { unfold Qlt in Hx. simpl in Hx. unfold n. lia. }
  assert (0 < d)%Z as Hd by (unfold d; lia).
  pose proof (Z.log2_spec n Hn) as [Hn1 Hn2].
  pose proof (Z.log2_spec d Hd) as [Hd1 Hd2].
  pose proof (Z.log2_nonneg n) as Hln. pose proof (Z.log2_nonneg d) as Hld.
  rewrite Zle_Qle in Hn1, Hd1. rewrite Zlt_Qlt in Hn2, Hd2, Hd.
  rewrite pow2_Z in Hn1, Hd1 by done.
  rewrite pow2_Z in Hn2, Hd2 by lia.
  unfold Z.succ in Hn2, Hd2. rewrite pow2_succ in Hn2, Hd2.
  assert (x * inject_Z d == inject_Z n)%Q as Hq.
  { rewrite (Q_as_quotient x) at 1. fold n d. field.
    intros E. rewrite E in Hd. by apply Qlt_irrefl in Hd. }
  change (inject_Z 0) with 0%Q in Hd.
  pose proof (pow2_quotient (Z.log2 n) (Z.log2 d)) as Hp.
  pose proof (pow2_pos (Z.log2 n - Z.log2 d)) as Hp0.
  set (p := pow2 (Z.log2 n - Z.log2 d)) in *.
  set (a := pow2 (Z.log2 n)) in *. set (b := pow2 (Z.log2 d)) in *.
  set (N := inject_Z n) in *. set (D := inject_Z d) in *.
  destruct (Qle_bool p x) eqn:E.
  - apply Qle_bool_iff in E. split; [done|].
    fold p. rewrite pow2_succ. fold p.
    apply (Qmult_lt_cancel _ _ D Hd). rewrite Hq.
    apply Qlt_le_trans with (y := (2 * a)%Q); [done|].
    rewrite <- Hp.
    setoid_replace (2 * p * D)%Q with (2 * (p * D))%Q using relation Qeq by ring.
    apply Qmult_le_l; [reflexivity|].
    apply Qmult_le_l; [done|]. done.
  - assert (x < p)%Q as Hlt.
    { apply Qnot_le_lt. intros Hle. apply Qle_bool_iff in Hle.
      rewrite Hle in E. discriminate. }
    replace (Z.log2 n - Z.log2 d - 1 + 1)%Z with (Z.log2 n - Z.log2 d)%Z by lia.
    split; [|done].
    assert (pow2 (Z.log2 n - Z.log2 d - 1) * 2 == p)%Q as Hh.
    { unfold p.
      replace (Z.log2 n - Z.log2 d)%Z with (Z.log2 n - Z.log2 d - 1 + 1)%Z
        at 2 by lia.
      rewrite pow2_succ. ring. }
    pose proof (pow2_pos (Z.log2 n - Z.log2 d - 1)) as Hh0.
    set (h := pow2 (Z.log2 n - Z.log2 d - 1)) in *.
    apply (Qmult_le_cancel _ _ D Hd). rewrite Hq.
    apply Qle_trans with (y := a); [|done].
    rewrite <- Hp, <- Hh.
    setoid_replace (h * 2 * b)%Q with (h * (2 * b))%Q using relation Qeq by ring.
    apply Qmult_le_l; [done|]. apply Qlt_le_weak. done.
Qed.

Lemma binade_below x e :
  (0 < x)%Q → (x < pow2 e)%Q → (binade x < e)%Z.
Proof.
  intros Hx Hlt. destruct (binade_spec x Hx) as [Hle _].
  apply (Qpower_lt_compat_l_inv 2); [|reflexivity].
  eapply Qle_lt_trans; [exact Hle | exact Hlt].
Qed.

(** Rounding to the nearest integer stays between the integers around. *)
Lemma roundHalfEven_between (a b : Z) (y : Q) :
  (inject_Z a <= y)%Q → (y <= inject_Z b)%Q →
  (a ≤ roundHalfEven y ≤ b)%Z.
Proof.
  intros Ha Hb. unfold roundHalfEven.
  pose proof (Qfloor_le y) as Hf. pose proof (Qlt_floor y) as Hf'.
  assert (a ≤ Qfloor y)%Z as Haf.
  { rewrite <- (Qfloor_Z a). by apply Qfloor_resp_le. }
  assert (Qfloor y ≤ b)%Z as Hfb.
  { rewrite <- (Qfloor_Z b). by apply Qfloor_resp_le. }
  assert (((1 # 2) <= y - inject_Z (Qfloor y))%Q → (Qfloor y + 1 ≤ b)%Z) as Hup.
  { intros Hhalf. destruct (Z.eq_dec (Qfloor y) b) as [E|E]; [|lia].
    rewrite E in Hhalf. lra. }
  destruct (y - inject_Z (Qfloor y) ?= 1 # 2)%Q eqn:E.
  - apply Qeq_alt in E.
    destruct (Z.even (Qfloor y)); [lia|].
    split; [lia|]. apply Hup. rewrite E. apply Qle_refl.
  - lia.
  - apply Qgt_alt in E. split; [lia|]. apply Hup. by apply Qlt_le_weak.
Qed.

(** A sum that lies between two consecutive integers below 2^53 is rounded
    to a double between them. *)
Lemma roundDouble_between (n : Z) (x : Q) :
  (0 ≤ n)%Z → (n + 1 < 2 ^ 53)%Z →
  (inject_Z n <= x)%Q → (x <= inject_Z (n + 1))%Q →
  (inject_Z n <= roundDouble x)%Q ∧ (roundDouble x <= inject_Z (n + 1))%Q.
Proof.
  intros Hn Hmax Hlo Hhi. unfold roundDouble.
  assert (0 <= inject_Z n)%Q as Hn' by (rewrite Zle_Qle in Hn; exact Hn).
  destruct (x ?= 0)%Q eqn:E.
  - apply Qeq_alt in E. rewrite E in Hlo.
    change 0%Q with (inject_Z 0) in Hlo. rewrite <- Zle_Qle in Hlo.
    assert (n = 0)%Z as -> by lia.
    split; [apply Qle_refl | discriminate].
  - apply Qlt_alt in E. lra.
  - apply Qgt_alt in E. unfold roundPositive.
    set (e := Z.max (binade x) (-1022)).
    assert (e ≤ 52)%Z as He.
    { assert (binade x < 53)%Z; [|lia].
      apply binade_below; [done|].
      eapply Qle_lt_trans; [exact Hhi|].
      rewrite <- pow2_Z by lia. by rewrite <- Zlt_Qlt. }
    pose proof (pow2_pos (e - 52)) as Hulp.
    set (ulp := pow2 (e - 52)) in *.
    set (k := (52 - e)%Z).
    assert (inject_Z (2 ^ k) * ulp == 1)%Q as Hone.
    { rewrite pow2_Z by lia. unfold ulp. rewrite <- pow2_plus.
      by replace (k + (e - 52))%Z with 0%Z by lia. }
    assert (¬ ulp == 0) as Hnz.
    { intros E0. rewrite E0 in Hulp. by apply Qlt_irrefl in Hulp. }
    assert (∀ z : Z, inject_Z (z * 2 ^ k) * ulp == inject_Z z)%Q as Hgrid.
    { intros z. rewrite inject_Z_mult, <- Qmult_assoc, Hone. ring. }
    destruct (roundHalfEven_between (n * 2 ^ k) ((n + 1) * 2 ^ k) (x / ulp))
      as [Hlo' Hhi'].
    + apply Qle_shift_div_l; [done|]. by rewrite Hgrid.
    + apply Qle_shift_div_r; [done|]. by rewrite Hgrid.
    + rewrite Zle_Qle in Hlo', Hhi'.
      rewrite <- (Hgrid n), <- (Hgrid (n + 1)%Z).
      split; apply Qmult_le_compat_r; try done; by apply Qlt_le_weak.
Qed.

(** The doubles that 0.1 and 1/3 are read as, and two ties above 2^53. *)
Example roundDouble_samples :
  roundDouble (1 # 10) == 3602879701896397 # 36028797018963968
  ∧ roundDouble (1 # 3) == 6004799503160661 # 18014398509481984
  ∧ roundDouble (inject_Z (2 ^ 53) + 1) == inject_Z (2 ^ 53)
  ∧ roundDouble (inject_Z (2 ^ 53) + 3) == inject_Z (2 ^ 53 + 4)
  ∧ roundDouble (- (1 # 10)) == - (3602879701896397 # 36028797018963968).
Proof. vm_compute. done. Qed.

(** ** The notification log *)

Lemma notify_push service s k :
  notify service s k
  = match notificationOf service k with
    | Some n => setNotifications (pushNotification n) s
    | None => s
    end.
Proof.
  unfold notify, monitorCallback, notificationOf.
  destruct (char_value (tick_char k)) as [v|]; [|done].
  by destruct (String.eqb v "").
Qed.

Lemma notifyAll_notifications service ticks s :
  notifications (notifyAll service ticks s)
  = pushAll (omap (notificationOf service) ticks) (notifications s).
Proof.
  revert s. induction ticks as [|k ticks IH]; intros s; [done|].
  unfold notifyAll, pushAll in *. cbn [foldl omap list_omap].
  rewrite IH, notify_push.
  destruct (notificationOf service k) as [n|]; [|done].
  by destruct s.
Qed.

Lemma take_cons_take {A} (a : list A) n (log : list A) :
  take 100 (a ++ n :: take 99 log) = take 100 (a ++ n :: log).
Proof.
  rewrite !take_app. f_equal.
  destruct (100 - length a) as [|k] eqn:E; [done|].
  simpl. f_equal. rewrite take_take. f_equal. lia.
Qed.

Lemma pushAll_take events log :
  length log ≤ 100 →
  pushAll events log = take 100 (reverse events ++ log).
Proof.
  revert log. induction events as [|n events IH]; intros log Hlen.
  - simpl. by rewrite take_ge.
  - unfold pushAll in *. cbn [foldl]. rewrite IH.
    + unfold pushNotification, slice0.
      by rewrite take_cons_take, reverse_cons, <- app_assoc.
    + unfold pushNotification, slice0. simpl. rewrite length_take. lia.
Qed.

Lemma log_closed_form service ticks s :
  notifications (notifyAll service ticks (setNotifications (λ _, []) s))
  = take 100 (reverse (omap (notificationOf service) ticks)).
Proof.
  rewrite notifyAll_notifications.
  replace (notifications (setNotifications (λ _, []) s))
    with (@nil NotificationData) by (by destruct s).
  rewrite pushAll_take by (simpl; lia). by rewrite app_nil_r.
Qed.

Lemma StronglySorted_reverse {A} (R : relation A) l :
  StronglySorted R l → StronglySorted (flip R) (reverse l).
Proof.
  induction 1 as [|x l Hl IH Hx]; [constructor|].
  rewrite reverse_cons. apply StronglySorted_app_2.
  - intros x1 x2 H1 H2. apply list_elem_of_singleton in H2. subst.
    rewrite Forall_forall in Hx. apply Hx. by apply elem_of_reverse.
  - done.
  - repeat constructor.
Qed.

Lemma StronglySorted_take {A} (R : relation A) n l :
  StronglySorted R l → StronglySorted R (take n l).
Proof.
  intros H. rewrite <- (take_drop n l) in H.
  by apply StronglySorted_app_1_l in H.
Qed.

(** The id of an event lies between the clock reading it was made from
    and the next millisecond. *)
Lemma id_between_clock service k n :
  validRandom k → validClock k → notificationOf service k = Some n →
  (inject_Z (tick_now k) <= notif_id n)%Q
  ∧ (notif_id n <= inject_Z (tick_now k + 1))%Q.
Proof.
  intros [Hr0 Hr1] [Hc0 Hc1] En. unfold notificationOf in En.
  destruct (char_value (tick_char k)) as [v|]; [|done].
  destruct (String.eqb v ""); [done|]. inversion En; subst; clear En.
  cbn [notif_id]. unfold numberAdd.
  apply roundDouble_between; try done.
  - lra.
  - rewrite inject_Z_plus. change (inject_Z 1) with 1%Q. lra.
Qed.

Lemma omap_sorted service (V : Tick → Prop) (P : relation Tick)
    (R : relation NotificationData) ticks :
  (∀ k k' n n', V k → V k' → P k k' →
     notificationOf service k = Some n →
     notificationOf service k' = Some n' → R n n') →
  Forall V ticks → StronglySorted P ticks →
  StronglySorted R (omap (notificationOf service) ticks).
Proof.
  intros HR Hv Hs. induction Hs as [|k ticks Hs IH Hk]; [constructor|].
  inversion Hv as [|? ? Hvk Hvt]; subst.
  cbn [omap list_omap]. specialize (IH Hvt).
  destruct (notificationOf service k) as [n|] eqn:En; [|done].
  constructor; [done|].
  apply Forall_forall. intros m Hm.
  apply list_elem_of_omap in Hm as (k' & Hk' & Em).
  rewrite Forall_forall in Hk, Hvt. eauto.
Qed.

(** Ids do not go back when the clock moves between two updates. *)
Lemma ids_follow_clock service ticks :
  Forall validRandom ticks → Forall validClock ticks →
  StronglySorted (λ a b, (tick_now a < tick_now b)%Z) ticks →
  StronglySorted (λ a b, (notif_id a <= notif_id b)%Q)
    (omap (notificationOf service) ticks).
Proof.
  intros Hr Hc.
  apply (omap_sorted service (λ k, validRandom k ∧ validClock k));
    [|by apply Forall_and].
  intros k k' n n' [Hrk Hck] [Hrk' Hck'] Hlt En En'.
  destruct (id_between_clock service k n Hrk Hck En) as [_ Hhi].
  destruct (id_between_clock service k' n' Hrk' Hck' En') as [Hlo _].
  assert (inject_Z (tick_now k + 1) <= inject_Z (tick_now k'))%Q
    by (rewrite <- Zle_Qle; lia).
  lra.
Qed.

(** They go forward when it moves by more than a millisecond. *)
Lemma ids_follow_clock_apart service ticks :
  Forall validRandom ticks → Forall validClock ticks →
  StronglySorted (λ a b, (tick_now a + 1 < tick_now b)%Z) ticks →
  StronglySorted (λ a b, (notif_id a < notif_id b)%Q)
    (omap (notificationOf service) ticks).
Proof.
  intros Hr Hc.
  apply (omap_sorted service (λ k, validRandom k ∧ validClock k));
    [|by apply Forall_and].
  intros k k' n n' [Hrk Hck] [Hrk' Hck'] Hlt En En'.
  destruct (id_between_clock service k n Hrk Hck En) as [_ Hhi].
  destruct (id_between_clock service k' n' Hrk' Hck' En') as [Hlo _].
  assert (inject_Z (tick_now k + 1) < inject_Z (tick_now k'))%Q
    by (rewrite <- Zlt_Qlt; lia).
  lra.
Qed.

Lemma log_sorted (R : relation NotificationData) service ticks s :
  StronglySorted R (omap (notificationOf service) ticks) →
  StronglySorted (flip R)
    (notifications
       (notifyAll service ticks (setNotifications (λ _, []) s))).
Proof.
  intros H. rewrite log_closed_form.
  by apply StronglySorted_take, StronglySorted_reverse.
Qed.

(** C3, as amended.  When [Math.random()] lies in [0, 1) and [Date.now()]
    is strictly later at each update than at the one before, an event pushed
    later has an id that is not smaller: ids do not decrease in push order
    and do not increase from the head of the log to its tail.  When the
    clock readings are more than a millisecond apart the ids are strictly
    ordered. *)
Theorem ids_never_decrease_with_clock service ticks s :
  Forall validRandom ticks →
  Forall validClock ticks →
  StronglySorted (λ a b, (tick_now a < tick_now b)%Z) ticks →
  let events := omap (notificationOf service) ticks in
  let log :=
    notifications (notifyAll service ticks (setNotifications (λ _, []) s)) in
  StronglySorted (λ a b, (notif_id a <= notif_id b)%Q) events
  ∧ StronglySorted (λ a b, (notif_id b <= notif_id a)%Q) log
  ∧ (StronglySorted (λ a b, (tick_now a + 1 < tick_now b)%Z) ticks →
     StronglySorted (λ a b, (notif_id a < notif_id b)%Q) events
     ∧ StronglySorted (λ a b, (notif_id b < notif_id a)%Q) log).
Proof.
  intros Hr Hc Hs events log.
  pose proof (ids_follow_clock service ticks Hr Hc Hs) as Hids.
  split; [done|]. split.
  - by apply (log_sorted (λ a b, (notif_id a <= notif_id b)%Q)).
  - intros Hapart.
    pose proof (ids_follow_clock_apart service ticks Hr Hc Hapart) as Hlt.
    split; [done|].
    by apply (log_sorted (λ a b, (notif_id a < notif_id b)%Q)).
Qed.

Lemma paced_valid : Forall validRandom paced ∧ Forall validClock paced.
Proof.
  unfold paced. split; apply Forall_fmap, Forall_forall; intros i Hi;
    apply elem_of_seq in Hi.
  - unfold validRandom. simpl. lra.
  - unfold validClock. simpl. lia.
Qed.

Lemma paced_clock :
  StronglySorted (λ a b, (tick_now a < tick_now b)%Z) paced
  ∧ StronglySorted (λ a b, (tick_now a + 1 < tick_now b)%Z) paced.
Proof.
  unfold paced. generalize 0 at 1 3. generalize 105.
  induction n as [|n IH]; intros a; [split; constructor|].
  destruct (IH (S a)) as [IH1 IH2].
  simpl. split; (constructor; [done|]);
    apply Forall_fmap, Forall_forall; intros i Hi;
    apply elem_of_seq in Hi; simpl; lia.
Qed.

(** The premises of [ids_never_decrease_with_clock] hold for updates two
    milliseconds apart. *)
Lemma ids_never_decrease_with_clock_witness :
  StronglySorted (λ a b, (notif_id b <= notif_id a)%Q)
    (notifications
       (notifyAll "180D" paced (setNotifications (λ _, []) mounted)))
  ∧ StronglySorted (λ a b, (notif_id b < notif_id a)%Q)
      (notifications
         (notifyAll "180D" paced (setNotifications (λ _, []) mounted))).
Proof.
  destruct (ids_never_decrease_with_clock "180D" paced mounted
              (proj1 paced_valid) (proj2 paced_valid) (proj1 paced_clock))
    as (_ & Hle & Hlt).
  split; [exact Hle | exact (proj2 (Hlt (proj2 paced_clock)))].
Defined.

(** C3 fails as stated.  Two updates within the same millisecond, the
    second with the smaller random part: the event pushed later has the
    smaller id.  Two updates one millisecond apart, the random parts
    16383/16384 and 1/16384: both sums are rounded to the same double, so
    the event pushed later has the same id. *)
Lemma ids_not_strictly_increasing :
  (let ticks := [tickAt 1000 (Qmake 1 2); tickAt 1000 (Qmake 1 4)] in
   Forall validRandom ticks
   ∧ ∃ earlier later,
       omap (notificationOf "180D") ticks = [earlier; later]
       ∧ notifications (notifyAll "180D" ticks mounted) = [later; earlier]
       ∧ (notif_id later < notif_id earlier)%Q)
  ∧ (let ticks := [tickAt 1700000000000 (Qmake 16383 16384);
                   tickAt 1700000000001 (Qmake 1 16384)] in
     Forall validRandom ticks
     ∧ Forall validClock ticks
     ∧ ∃ earlier later,
         omap (notificationOf "180D") ticks = [earlier; later]
         ∧ notifications (notifyAll "180D" ticks mounted) = [later; earlier]
         ∧ notif_id later == notif_id earlier
         ∧ notif_id later == inject_Z 1700000000001).
Proof.
  split.
  - split.
    + repeat constructor; unfold validRandom; simpl; lra.
    + eexists _, _.
      split_and!; [reflexivity | vm_compute; reflexivity
                  | vm_compute; reflexivity].
  - split; [|split].
    + repeat constructor; unfold validRandom; simpl; lra.
    + repeat constructor; unfold validClock; simpl; lia.
    + eexists _, _.
      split_and!; [reflexivity | vm_compute; reflexivity
                  | vm_compute; reflexivity | vm_compute; reflexivity].
Qed.

Lemma Qltb_lt a b : Qltb a b = true → (a < b)%Q.
Proof.
  unfold Qltb. intros H. apply Qnot_le_lt. intros Hle.
  apply Qle_bool_iff in Hle. rewrite Hle in H. discriminate.
Qed.

Lemma forallb_Forall_with {A} (f : A → bool) (P : A → Prop) l :
  (∀ x, f x = true → P x) → forallb f l = true → Forall P l.
Proof.
  intros Hf. induction l as [|x l IH]; simpl; [constructor|].
  intros [Hx Hl]%andb_true_iff. constructor; auto.
Qed.

Lemma increasingb_sorted (l : list NotificationData) :
  increasingb l = true →
  StronglySorted (λ a b, (notif_id a < notif_id b)%Q) l.
Proof.
  induction l as [|x l IH]; simpl; [constructor|].
  intros [Hx Hl]%andb_true_iff. constructor; [by apply IH|].
  eapply forallb_Forall_with; [|exact Hx]. intros y. apply Qltb_lt.
Qed.

(** Updates one millisecond apart with the random part one half: every sum
    is a double, so the ids increase. *)
Lemma steady_ids_increase :
  StronglySorted (λ a b, (notif_id a < notif_id b)%Q)
    (omap (notificationOf "180D") steady).
Proof. apply increasingb_sorted. vm_compute. reflexivity. Qed.

(** C4, as amended.  Starting from an empty log, the log after a run of
    updates is the reversed run of events cut to its first 100: the most
    recently pushed events, most recent first, at most 100 (exactly 100 of
    105).  When the ids were issued in increasing order, every evicted event
    has a smaller id than every retained one. *)
Theorem notification_log_retains_latest service ticks s :
  let events := omap (notificationOf service) ticks in
  let log :=
    notifications (notifyAll service ticks (setNotifications (λ _, []) s)) in
  log = take 100 (reverse events)
  ∧ log = reverse (drop (length events - 100) events)
  ∧ length log = min 100 (length events)
  ∧ (StronglySorted (λ a b, (notif_id a < notif_id b)%Q) events →
     Forall (λ evicted, Forall (λ kept, (notif_id evicted < notif_id kept)%Q)
                          log)
       (take (length events - 100) events)).
Proof.
  intros events log.
  assert (log = take 100 (reverse events)) as Hlog by apply log_closed_form.
  assert (log = reverse (drop (length events - 100) events)) as Hrev
    by (by rewrite Hlog, take_reverse).
  split_and!; try done.
  - by rewrite Hlog, length_take, length_reverse.
  - intros Hs. rewrite <- (take_drop (length events - 100) events) in Hs.
    apply Forall_forall. intros evicted He.
    apply Forall_forall. intros kept Hk.
    rewrite Hrev, elem_of_reverse in Hk.
    exact (StronglySorted_app_1_elem_of
             (λ a b, (notif_id a < notif_id b)%Q) _ _ _ _ Hs He Hk).
Qed.

(** The premise of [notification_log_retains_latest] holds for updates one
    millisecond apart. *)
Lemma notification_log_retains_latest_witness :
  Forall (λ evicted,
            Forall (λ kept, (notif_id evicted < notif_id kept)%Q)
              (notifications
                 (notifyAll "180D" steady
                    (setNotifications (λ _, []) mounted))))
    (take (length (omap (notificationOf "180D") steady) - 100)
       (omap (notificationOf "180D") steady)).
Proof.
  apply (notification_log_retains_latest "180D" steady mounted).
  apply steady_ids_increase.
Defined.

(** C4 fails as stated: of 105 events created within one millisecond with
    decreasing random parts, the log retains 100, and each of the five
    evicted events has a greater id than every retained one. *)
Lemma burst_keeps_lowest_ids :
  let events := omap (notificationOf "180D") burst in
  let log :=
    notifications
      (notifyAll "180D" burst (setNotifications (λ _, []) mounted)) in
  Forall validRandom burst
  ∧ length events = 105
  ∧ length log = 100
  ∧ Forall (λ evicted,
              Forall (λ kept, (notif_id kept < notif_id evicted)%Q) log)
      (take 5 events).
Proof.
  intros events log. split_and!.
  - unfold burst. apply Forall_fmap, Forall_forall. intros i Hi.
    apply elem_of_seq in Hi. unfold validRandom, tickAt. simpl.
    unfold Qle, Qlt. simpl. lia.
  - reflexivity.
  - reflexivity.
  - apply (forallb_Forall_with
             (λ evicted, forallb (λ kept, Qltb (notif_id kept)
                                            (notif_id evicted)) log)).
    + intros evicted H. eapply forallb_Forall_with; [|exact H].
      intros kept. apply Qltb_lt.
    + vm_compute. reflexivity.
Qed.

(** * Further properties *)

(** ** What every handler keeps *)

Ltac inv_fields H :=
  destruct H as [Hman Hconn Hlog Hdev Htim Hscan (rest & Hlis & Hrest & Hfst)
                   (Hsub & Hnd & Hnext) Hstate].

Ltac inv_easy :=
  let H := fresh "H" in
  intros H; inv_fields H;
  match goal with s : Component |- _ => destruct s end;
  simpl in *; split; simpl; eauto.

Lemma Inv_setIsScanning b s : Inv s → Inv (setIsScanning b s).
Proof. inv_easy. Qed.
Lemma Inv_setConnectionStatus c s : Inv s → Inv (setConnectionStatus c s).
Proof. inv_easy. Qed.
Lemma Inv_setBluetoothState st s : Inv s → Inv (setBluetoothState st s).
Proof. inv_easy. Qed.
Lemma Inv_setPermissionsGranted b s : Inv s → Inv (setPermissionsGranted b s).
Proof. inv_easy. Qed.
Lemma Inv_setDeviceScan b s : Inv s → Inv (setDeviceScan b s).
Proof. inv_easy. Qed.
Lemma Inv_setAutoReconnect b s : Inv s → Inv (setAutoReconnect b s).
Proof. inv_easy. Qed.
Lemma Inv_setReconnectTimeoutRef t s : Inv s → Inv (setReconnectTimeoutRef t s).
Proof. inv_easy. Qed.

Lemma Inv_resetConnection s :
  Inv s → Inv (setIsConnected false (setConnectedDevice None s)).
Proof. inv_easy. Qed.
Lemma Inv_resetConnection' s :
  Inv s → Inv (setConnectedDevice None (setIsConnected false s)).
Proof. inv_easy. Qed.
Lemma Inv_connectedStore device s : Inv s → Inv (connectedStore device s).
Proof. inv_easy. Qed.

Lemma Inv_setNotifications f s :
  (∀ l, length l ≤ 100 → length (f l) ≤ 100) →
  Inv s → Inv (setNotifications f s).
Proof. intros Hf. inv_easy. Qed.

Lemma Inv_clearLog s : Inv s → Inv (setNotifications (λ _, []) s).
Proof. apply Inv_setNotifications. simpl. lia. Qed.

Lemma Inv_pushNotification n s :
  Inv s → Inv (setNotifications (pushNotification n) s).
Proof.
  apply Inv_setNotifications. intros l _.
  unfold pushNotification, slice0. cbn [length]. rewrite length_take. lia.
Qed.

Lemma Inv_setDevices f s :
  (∀ l, NoDup (device_id <$> l) → NoDup (device_id <$> f l)) →
  Inv s → Inv (setDevices f s).
Proof. intros Hf. inv_easy. Qed.

Lemma Inv_clearDevices s : Inv s → Inv (setDevices (λ _, []) s).
Proof. apply Inv_setDevices. intros _ _. constructor. Qed.

Lemma Inv_updateDevices d s : Inv s → Inv (setDevices (updateDevices d) s).
Proof.
  apply Inv_setDevices. intros l Hl. rewrite updateDevices_ids.
  by apply sight_NoDup.
Qed.

Lemma Inv_clearTimeout t s : Inv s → Inv (clearTimeout t s).
Proof.
  inv_easy.
  - intros t' tm Hl. apply lookup_delete_Some in Hl as [_ Hl]. eauto.
  - intros t' Ht'. destruct (Hscan t' Ht') as [Hlt Hcb]. split; [done|].
    intros tm Hl. apply lookup_delete_Some in Hl as [_ Hl]. eauto.
Qed.

Lemma Inv_stopScan s : Inv s → Inv (stopScan s).
Proof.
  intros H. unfold stopScan.
  assert (Inv (setIsScanning false
                 (if bleManagerRef s then setDeviceScan false s else s))) as H'.
  { apply Inv_setIsScanning. destruct (bleManagerRef s);
      [by apply Inv_setDeviceScan | done]. }
  destruct (scanTimeoutRef _); [by apply Inv_clearTimeout | done].
Qed.

Lemma Inv_scheduleReconnect env device s :
  Inv s → Inv (scheduleReconnect env device s).
Proof.
  inv_easy.
  - intros t tm Hl. apply lookup_insert_Some in Hl as [[<- _]|[_ Hl]];
      [lia|]. apply Htim in Hl. lia.
  - intros t Ht. destruct (Hscan t Ht) as [Hlt Hcb]. split; [lia|].
    intros tm Hl. rewrite lookup_insert_ne in Hl by lia. eauto.
Qed.

Lemma Inv_addSubscription l s :
  isStateListener l = false →
  Inv s →
  Inv (let '(subscription, s) := addListener l s in
       setSubscriptionsRef (subscriptionsRef s ++ [subscription]) s).
Proof.
  intros Hl H; inv_fields H.
  destruct s as [? ? ? ? ? ? ? ? ? ? ? ? subs ? ? ? ls nh ? ?].
  simpl in *. split; simpl; eauto.
  - exists (rest ++ [(nh, l)]). subst. split_and!.
    + done.
    + apply Forall_app; split; [done|]. by repeat constructor.
    + by rewrite fmap_app.
  - split_and!.
    + apply Forall_app. split.
      * eapply Forall_impl; [exact Hsub|]. simpl. lia.
      * repeat constructor; simpl; lia.
    + apply NoDup_app. split_and!; [done| |apply NoDup_singleton].
      intros h Hh Hh'. apply list_elem_of_singleton in Hh'. subst.
      rewrite Forall_forall in Hsub. specialize (Hsub _ Hh). simpl in Hsub.
      lia.
    + lia.
Qed.

Lemma Inv_setupConnectionMonitoring env device s :
  Inv s → Inv (setupConnectionMonitoring env device s).
Proof. by apply (Inv_addSubscription (DisconnectListener env device)). Qed.

Lemma Inv_registerMonitors es s : Inv s → Inv (registerMonitors es s).
Proof.
  revert s. induction es as [|e es IH]; intros s H; [done|].
  unfold registerMonitors in *. cbn [foldl]. apply IH.
  by apply (Inv_addSubscription
              (CharacteristicMonitor e.1 (char_uuid (characteristic e.2)))).
Qed.

Lemma filter_tracked (subs : list nat) (rest : list (nat * Listener)) :
  fst <$> rest = subs → filter (λ hl, hl.1 ∉ subs) rest = [].
Proof.
  intros Hfst.
  assert (∀ hl, hl ∈ rest → hl.1 ∈ subs) as Hin.
  { intros hl Hhl. rewrite <- Hfst. apply list_elem_of_fmap. eauto. }
  clear Hfst. induction rest as [|hl rest' IH]; [done|].
  rewrite filter_cons_False.
  - apply IH. intros hl' Hhl'. apply Hin. by right.
  - intros Hn. apply Hn, Hin. by left.
Qed.

Lemma Inv_clearSubscriptions s : Inv s → Inv (clearSubscriptions s).
Proof.
  intros H. rewrite clearSubscriptions_closed. inv_fields H.
  destruct s. simpl in *. split; simpl; eauto.
  - exists []. subst. rewrite filter_cons_True.
    + by rewrite filter_tracked.
    + simpl. intros Hin. rewrite Forall_forall in Hsub.
      specialize (Hsub _ Hin). simpl in Hsub. lia.
  - split_and!; [constructor | constructor | done].
Qed.

Lemma Inv_mount radio granted : Inv (mount (Resolved radio) granted).
Proof.
  destruct radio; split; simpl; try done; try lia;
    try (by constructor);
    try (by exists []);
    try (split_and!; [constructor | constructor | lia]).
Qed.

Lemma Inv_scanCallback error device s : Inv s → Inv (scanCallback error device s).
Proof.
  intros H. unfold scanCallback. destruct error; [by apply Inv_setIsScanning|].
  destruct device; [by apply Inv_updateDevices | done].
Qed.

Lemma Inv_startTimer s :
  Inv s →
  Inv (let '(t, s) := setTimeout ScanTimeout 20000 s in
       setScanTimeoutRef (Some t) s).
Proof.
  inv_easy.
  - intros t tm Hl. apply lookup_insert_Some in Hl as [[<- _]|[_ Hl]];
      [lia|]. apply Htim in Hl. lia.
  - intros t [= <-]. split; [lia|]. intros tm Hl.
    rewrite lookup_insert_eq in Hl. by inversion Hl.
Qed.

Lemma Inv_startScan env radio granted scanThrows s :
  Inv s → Inv (startScan env radio granted scanThrows s).
Proof.
  intros H. unfold startScan, checkPrerequisites.
  destruct (bleManagerRef s); [|done]. cbn [negb].
  destruct (isPoweredOn radio); [|done]. cbn [negb].
  assert (∀ s0, Inv s0 →
            Inv (if scanThrows
                 then setIsScanning false
                        (setDevices (λ _, []) (setIsScanning true s0))
                 else let '(t, s1) :=
                        setTimeout ScanTimeout 20000
                          (setDeviceScan true
                             (setDevices (λ _, []) (setIsScanning true s0))) in
                      setScanTimeoutRef (Some t) s1)) as Hgo.
  { intros s0 H0. destruct scanThrows.
    - by apply Inv_setIsScanning, Inv_clearDevices, Inv_setIsScanning.
    - by apply Inv_startTimer, Inv_setDeviceScan, Inv_clearDevices,
        Inv_setIsScanning. }
  destruct (r_permissionsGranted env); cbn [negb]; [by apply Hgo|].
  destruct granted; cbn [negb]; [|done].
  by apply Hgo, Inv_setPermissionsGranted.
Qed.

Lemma Inv_pressScan radio granted scanThrows s :
  Inv s → Inv (pressScan radio granted scanThrows s).
Proof.
  intros H. unfold pressScan. destruct (canStartScan s); [|done].
  cbn [negb]. destruct (isScanning s);
    [by apply Inv_stopScan | by apply Inv_startScan].
Qed.

Lemma Inv_beginConnect env s : Inv s → Inv (beginConnect env s).
Proof.
  intros H. unfold beginConnect.
  destruct (r_isScanning env);
    [by apply Inv_stopScan, Inv_setConnectionStatus
    | by apply Inv_setConnectionStatus].
Qed.

Lemma Inv_connectFailed env device e s :
  Inv s → Inv (connectFailed env device e s).
Proof.
  intros H. unfold connectFailed. fold (isCancellation e).
  destruct (r_autoReconnect env && negb (isCancellation e)).
  - by apply Inv_scheduleReconnect, Inv_resetConnection,
      Inv_setConnectionStatus.
  - by apply Inv_resetConnection, Inv_setConnectionStatus.
Qed.

Lemma Inv_connectToDevice env device attempt s :
  Inv s → Inv (connectToDevice env device attempt s).
Proof.
  intros H. rewrite connectToDevice_unfold by apply H.
  pose proof (Inv_beginConnect env s H) as Hb.
  destruct attempt.
  - by apply Inv_connectFailed.
  - by apply Inv_registerMonitors, Inv_connectedStore.
  - by apply Inv_connectFailed.
  - by apply Inv_connectFailed.
  - by apply Inv_registerMonitors, Inv_setupConnectionMonitoring,
      Inv_connectedStore.
Qed.

Lemma Inv_disconnect env cancel s : Inv s → Inv (disconnect env cancel s).
Proof.
  intros H. unfold disconnect.
  destruct (disconnectReturns env s); [done|].
  assert (Inv (disconnectRelease s)) as Hc.
  { apply Inv_clearSubscriptions.
    destruct (reconnectTimeoutRef s); [by apply Inv_clearTimeout | done]. }
  destruct cancel; [|done].
  by apply Inv_clearLog, Inv_setConnectionStatus, Inv_resetConnection.
Qed.

Lemma Inv_disconnectedCallback env device error disconnectedDevice s :
  Inv s → Inv (disconnectedCallback env device error disconnectedDevice s).
Proof.
  intros H. unfold disconnectedCallback.
  assert (Inv (clearSubscriptions
                 (setConnectionStatus Disconnected
                    (setConnectedDevice None (setIsConnected false s)))))
    as Hc
    by (by apply Inv_clearSubscriptions, Inv_setConnectionStatus,
          Inv_resetConnection').
  destruct (r_autoReconnect env && _); [by apply Inv_scheduleReconnect | done].
Qed.

Lemma Inv_foldl {A} (f : Component → A → Component) (l : list A) s :
  (∀ s x, Inv s → Inv (f s x)) → Inv s → Inv (foldl f s l).
Proof.
  intros Hf. revert s. induction l as [|x l IH]; intros s H; [done|].
  simpl. by apply IH, Hf.
Qed.

Lemma Inv_updateConnectionStatus env st s :
  Inv s → Inv (updateConnectionStatusFromBluetoothState env st s).
Proof.
  intros H. unfold updateConnectionStatusFromBluetoothState.
  destruct st; try by apply Inv_setConnectionStatus.
  - destruct (r_isScanning env);
      [by apply Inv_stopScan, Inv_setConnectionStatus
      | by apply Inv_setConnectionStatus].
  - destruct (negb (r_isConnected env));
      [by apply Inv_setConnectionStatus | done].
Qed.

Lemma Inv_radioStateChanged st s : Inv s → Inv (radioStateChanged st s).
Proof.
  intros H. unfold radioStateChanged. apply Inv_foldl; [|done].
  intros s0 [h l] H0. simpl. destruct l; try done.
  destruct (liveListener h s0); [|done]. unfold stateListener.
  by apply Inv_updateConnectionStatus, Inv_setBluetoothState.
Qed.

Lemma Inv_peripheralDisconnected deviceId error disconnectedDevice s :
  Inv s → Inv (peripheralDisconnected deviceId error disconnectedDevice s).
Proof.
  intros H. unfold peripheralDisconnected. apply Inv_foldl; [|done].
  intros s0 [h l] H0. simpl. destruct l; try done.
  destruct (liveListener h s0); [|done].
  destruct (String.eqb _ _); [by apply Inv_disconnectedCallback | done].
Qed.

Lemma Inv_monitorCallback service error char now random time s :
  Inv s → Inv (monitorCallback service error char now random time s).
Proof.
  intros H. unfold monitorCallback. destruct error; [done|].
  destruct char as [c|]; [|done]. destruct (char_value c) as [v|]; [|done].
  destruct (String.eqb v ""); [done | by apply Inv_pushNotification].
Qed.

Lemma Inv_fireTimer t attempt s : Inv s → Inv (fireTimer t attempt s).
Proof.
  intros H. unfold fireTimer. destruct (timers s !! t) as [tm|]; [|done].
  destruct (callback tm).
  - by apply Inv_stopScan, Inv_clearTimeout.
  - by apply Inv_connectToDevice, Inv_clearTimeout.
Qed.

Lemma Inv_handle s e : Inv s → Inv (handle s e).
Proof.
  intros H. destruct e; simpl.
  - by apply Inv_pressScan.
  - unfold pressDevice. destruct (devices s !! i); [|done].
    destruct (isConnected s || _); [done | by apply Inv_connectToDevice].
  - unfold pressDisconnect.
    destruct (isConnected s); [by apply Inv_disconnect | done].
  - by apply Inv_setAutoReconnect.
  - by apply Inv_scanCallback.
  - by apply Inv_fireTimer.
  - by apply Inv_radioStateChanged.
  - by apply Inv_peripheralDisconnected.
  - unfold characteristicChanged. destruct (liveListener h s) as [[]|];
      try done. by apply Inv_monitorCallback.
Qed.

Lemma Inv_run radio granted events : Inv (run radio granted events).
Proof.
  unfold run. apply Inv_foldl; [apply Inv_handle | apply Inv_mount].
Qed.

(** ** Stores reached from mounting *)

(** In every store reached from mounting, [isConnected] is set exactly when
    a connected device is recorded. *)
Theorem connection_flags_agree radio granted events :
  let s := run radio granted events in
  isConnected s = true ↔ is_Some (connectedDevice s).
Proof.
  intros s. rewrite (inv_connected s (Inv_run radio granted events)).
  apply bool_decide_eq_true.
Qed.

(** In every store reached from mounting the log holds at most 100
    notifications. *)
Theorem log_never_exceeds_capacity radio granted events :
  length (notifications (run radio granted events)) ≤ 100.
Proof. apply inv_log, Inv_run. Qed.

(** In every store reached from mounting no two entries of the device list
    share an identity. *)
Theorem device_ids_stay_distinct radio granted events :
  NoDup (device_id <$> devices (run radio granted events)).
Proof. apply inv_devices, Inv_run. Qed.

Lemma Inv_handles_fresh s :
  Inv s → Forall (λ hl : nat * Listener, hl.1 < nextHandle s) (listeners s).
Proof.
  intros H. inv_fields H. rewrite Hlis. constructor; [simpl; lia|].
  apply Forall_forall. intros hl Hhl. rewrite Forall_forall in Hsub.
  assert (hl.1 ∈ subscriptionsRef s) as Hin.
  { rewrite <- Hfst. apply list_elem_of_fmap. eauto. }
  specialize (Hsub _ Hin). simpl in Hsub. lia.
Qed.

(** In every store reached from mounting, the listeners registered with the
    adapter are the state listener of the mount, under handle 1, followed by
    those recorded in [subscriptionsRef], in the same order and each once. *)
Theorem listeners_are_tracked radio granted events :
  let s := run radio granted events in
  fst <$> listeners s = 1 :: subscriptionsRef s
  ∧ NoDup (fst <$> listeners s)
  ∧ liveListener 1 s = Some (StateListener (renderOf initialComponent))
  ∧ stateSubscriptionRef s = Some 1.
Proof.
  intros s. pose proof (Inv_run radio granted events) as H. fold s in H.
  inv_fields H. unfold liveListener. rewrite Hlis, fmap_cons, Hfst.
  cbn [fst]. split_and!; try done. constructor; [|done].
  intros Hin. rewrite Forall_forall in Hsub. specialize (Hsub _ Hin).
  simpl in Hsub. lia.
Qed.

Lemma no_state_listener_no_callback newState rest s :
  Forall (λ hl : nat * Listener, isStateListener hl.2 = false) rest →
  foldl (λ s (hl : nat * Listener),
           match hl.2, liveListener hl.1 s with
           | StateListener env, Some _ => stateListener env newState s
           | _, _ => s
           end) s rest = s.
Proof.
  induction 1 as [|[h l] rest Hl _ IH]; [done|].
  cbn [foldl fst snd]. destruct l; try done.
Qed.

Lemma radioStateChanged_closed newState s :
  Inv s →
  radioStateChanged newState s
  = stateListener (renderOf initialComponent) newState s.
Proof.
  intros H. inv_fields H. unfold radioStateChanged, liveListener.
  rewrite Hlis at 1. cbn [foldl fst snd]. rewrite Hlis.
  cbn [lookupListener Nat.eqb]. by apply no_state_listener_no_callback.
Qed.

(** In every store reached from mounting, a change of the radio to
    PoweredOff sets the status to 'Bluetooth Off' and leaves the scan as it
    was: [isScanning], the adapter's scan, the timers and the device list
    are unchanged. *)
Theorem radio_off_never_stops_scan radio granted events :
  let s := run radio granted events in
  let s' := radioStateChanged PoweredOff s in
  connectionStatus s' = BluetoothOff
  ∧ bluetoothState s' = PoweredOff
  ∧ isScanning s' = isScanning s
  ∧ deviceScan s' = deviceScan s
  ∧ timers s' = timers s
  ∧ scanTimeoutRef s' = scanTimeoutRef s
  ∧ devices s' = devices s.
Proof.
  intros s s'. unfold s'.
  rewrite radioStateChanged_closed by apply Inv_run.
  by destruct s.
Qed.

(** In every store reached from mounting, a change of the radio to PoweredOn
    sets the status to 'Disconnected' whether or not a device is connected;
    the connected device, [isConnected] and the subscriptions stay. *)
Theorem radio_on_reports_disconnected radio granted events :
  let s := run radio granted events in
  let s' := radioStateChanged PoweredOn s in
  connectionStatus s' = Disconnected
  ∧ connectedDevice s' = connectedDevice s
  ∧ isConnected s' = isConnected s
  ∧ subscriptionsRef s' = subscriptionsRef s.
Proof.
  intros s s'. unfold s'.
  rewrite radioStateChanged_closed by apply Inv_run.
  by destruct s.
Qed.

(** ** Which events cancel a reconnect timer *)

Lemma reconnect_timer_not_scan_timer s t d env device :
  Inv s →
  timers s !! t = Some (mkTimer d (ReconnectTimeout env device)) →
  t < nextTimer s ∧ scanTimeoutRef s ≠ Some t.
Proof.
  intros H Ht. split; [by eapply inv_timers|].
  intros Hs. destruct (inv_scanTimeout s H t Hs) as [_ Hcb].
  by specialize (Hcb _ Ht).
Qed.

Lemma stopScan_frame t s :
  scanTimeoutRef s ≠ Some t → TimerFrame t s (stopScan s).
Proof.
  intros Hscan. unfold stopScan.
  destruct s as [? ? ? ? ? ? ? ? ? [] ? [t0|] ? ? ? ? ? ? ? ?];
    simpl in *; split; simpl;
    rewrite ?lookup_delete_ne by congruence; done.
Qed.

Lemma startScan_frame env radio granted scanThrows t s :
  t < nextTimer s → TimerFrame t s (startScan env radio granted scanThrows s).
Proof.
  intros Hlt. unfold startScan, checkPrerequisites.
  destruct s as [? ? ? ? ? ? ? ? ? [] ? ? ? ? ? ? ? ? ? ?];
    simpl in *; [|by split].
  destruct (isPoweredOn radio); simpl; [|by split].
  destruct (r_permissionsGranted env), granted, scanThrows; simpl;
    split; simpl; rewrite ?lookup_insert_ne by lia; done || lia.
Qed.

Lemma disconnectedCallback_frame env device error disconnectedDevice t s :
  t < nextTimer s →
  TimerFrame t s (disconnectedCallback env device error disconnectedDevice s).
Proof.
  intros Hlt. unfold disconnectedCallback.
  rewrite clearSubscriptions_closed.
  destruct (r_autoReconnect env && negb (mentionsCancelled error));
    destruct s; simpl in *; split; simpl;
    rewrite ?lookup_insert_ne by lia; done || lia.
Qed.

Lemma clearTimeout_frame t t' s :
  t' ≠ t → TimerFrame t s (clearTimeout t' s).
Proof.
  intros Hne. destruct s; split; simpl; [done| |done].
  by rewrite lookup_delete_ne.
Qed.

Lemma stateListener_mount_frame newState t s :
  TimerFrame t s (stateListener (renderOf initialComponent) newState s).
Proof. by destruct newState, s. Qed.

Lemma peripheralDisconnected_frame deviceId error disconnectedDevice t s :
  Inv s → t < nextTimer s →
  TimerFrame t s (peripheralDisconnected deviceId error disconnectedDevice s).
Proof.
  intros H Hlt. unfold peripheralDisconnected.
  generalize (listeners s) as l. intros l.
  assert (TimerFrame t s s) as Hrefl by apply TimerFrame_refl.
  revert Hrefl. generalize s at 2 4 as s0. revert H Hlt.
  induction l as [|[h x] l IH]; intros H Hlt s0 Hf; [done|].
  cbn [foldl fst snd]. apply IH; [done | done |].
  destruct x; try done. destruct (liveListener h s0); [|done].
  destruct (String.eqb _ _); [|done].
  eapply TimerFrame_trans; [exact Hf|].
  apply disconnectedCallback_frame. destruct Hf. lia.
Qed.

(** In every store reached from mounting, a pending reconnect timer is still
    pending after any event other than its own expiry and a press on the
    disconnect button. *)
Theorem reconnect_timer_outlives_events
  radio granted events t d envG deviceG e :
  let s := run radio granted events in
  timers s !! t = Some (mkTimer d (ReconnectTimeout envG deviceG)) →
  cancels t e = false →
  timers (handle s e) !! t
  = Some (mkTimer d (ReconnectTimeout envG deviceG)).
Proof.
  intros s Ht Hc. pose proof (Inv_run radio granted events) as H. fold s in H.
  clearbody s.
  destruct (reconnect_timer_not_scan_timer s t d envG deviceG H Ht)
    as [Hlt Hscan].
  rewrite <- Ht. apply (frame_timer t s).
  destruct e; simpl in *; try discriminate.
  - unfold pressScan. destruct (canStartScan s); [|apply TimerFrame_refl].
    simpl. destruct (isScanning s);
      [by apply stopScan_frame | by apply startScan_frame].
  - unfold pressDevice. destruct (devices s !! i); [|apply TimerFrame_refl].
    destruct (isConnected s || _); [apply TimerFrame_refl|].
    by apply connectToDevice_frame.
  - by destruct s.
  - unfold scanCallback. destruct error; [by destruct s|].
    destruct device; [by destruct s | apply TimerFrame_refl].
  - apply Nat.eqb_neq in Hc. unfold fireTimer.
    destruct (timers s !! t0) as [tm|] eqn:Ht0; [|apply TimerFrame_refl].
    eapply TimerFrame_trans; [by apply clearTimeout_frame|].
    destruct (callback tm).
    + apply stopScan_frame. by destruct s.
    + apply connectToDevice_frame; by destruct s.
  - rewrite radioStateChanged_closed by done. apply stateListener_mount_frame.
  - by apply peripheralDisconnected_frame.
  - unfold characteristicChanged. destruct (liveListener h s) as [[]|];
      try apply TimerFrame_refl.
    unfold monitorCallback. destruct error; [apply TimerFrame_refl|].
    destruct char as [c|]; [|apply TimerFrame_refl].
    destruct (char_value c) as [v|]; [|apply TimerFrame_refl].
    destruct (String.eqb v ""); [apply TimerFrame_refl | by destruct s].
Qed.

(** In the sample run the reconnect to A is pending as timer 2, and a drop
    of the link to B leaves it pending. *)
Lemma reconnect_timer_outlives_events_witness :
  timers (run PoweredOn true sampleRun) !! 2
  = Some (mkTimer 5000
            (ReconnectTimeout
               (renderOf (run PoweredOn true (take 3 sampleRun)))
               peripheralA))
  ∧ timers (handle (run PoweredOn true sampleRun)
              (PeripheralDropped "BB:02" None None)) !! 2
    = Some (mkTimer 5000
              (ReconnectTimeout
                 (renderOf (run PoweredOn true (take 3 sampleRun)))
                 peripheralA)).
Proof.
  split; [vm_compute; reflexivity|].
  apply (reconnect_timer_outlives_events PoweredOn true sampleRun 2 5000
           (renderOf (run PoweredOn true (take 3 sampleRun))) peripheralA
           (PeripheralDropped "BB:02" None None));
    vm_compute; reflexivity.
Defined.

(** ** Releasing listeners *)

Lemma filter_all_of {A} (P : A → Prop) `{∀ x, Decision (P x)} (l : list A) :
  (∀ x, x ∈ l → P x) → filter P l = l.
Proof.
  induction l as [|x l IH]; intros HP; [done|].
  rewrite filter_cons_True by (apply HP; by left).
  f_equal. apply IH. intros y Hy. apply HP. by right.
Qed.

Lemma filter_keep_rest (rest : list (nat * Listener)) (subs : list nat) :
  fst <$> rest = subs → Forall (λ h, 2 ≤ h) subs →
  filter (λ hl : nat * Listener, hl.1 ≠ 1) rest = rest.
Proof.
  intros <- Hsub. apply filter_all_of. intros hl Hhl.
  rewrite Forall_forall in Hsub.
  assert (2 ≤ hl.1) by (apply Hsub, list_elem_of_fmap; eauto). lia.
Qed.

Lemma cleanup_listeners s :
  listeners (cleanup s)
  = filter (λ hl, hl.1 ∉ subscriptionsRef s)
      match stateSubscriptionRef s with
      | Some h => filter (λ hl, hl.1 ≠ h) (listeners s)
      | None => listeners s
      end.
Proof.
  unfold cleanup. rewrite clearSubscriptions_closed.
  destruct s as [? ? ? ? ? ? ? ? ? [] [tr|] [ts|] ? [h|] ? ? ? ? ? ?];
    reflexivity.
Qed.

Lemma cleanup_store s :
  subscriptionsRef (cleanup s) = []
  ∧ deviceScan (cleanup s) = (if bleManagerRef s then false else deviceScan s)
  ∧ timers (cleanup s)
    = clearRef (reconnectTimeoutRef s) (clearRef (scanTimeoutRef s) (timers s)).
Proof.
  unfold cleanup. rewrite clearSubscriptions_closed.
  destruct s as [? ? ? ? ? ? ? ? ? [] [tr|] [ts|] ? [h|] ? ? ? ? ? ?];
    repeat split; reflexivity.
Qed.

(** [cleanup], in every store reached from mounting, leaves no listener
    registered and no subscription recorded and turns the adapter's scan
    off; of the timers it cancels the two held in [scanTimeoutRef] and
    [reconnectTimeoutRef] and no other. *)
Theorem cleanup_releases_listeners radio granted events :
  let s := run radio granted events in
  let s' := cleanup s in
  listeners s' = []
  ∧ subscriptionsRef s' = []
  ∧ deviceScan s' = false
  ∧ timers s'
    = clearRef (reconnectTimeoutRef s) (clearRef (scanTimeoutRef s) (timers s)).
Proof.
  intros s s'. pose proof (Inv_run radio granted events) as H. fold s in H.
  clearbody s. inv_fields H. unfold s'.
  destruct (cleanup_store s) as (Hs & Hd & Ht). rewrite Hman in Hd.
  split_and!; try done.
  rewrite cleanup_listeners, Hstate, Hlis.
  rewrite filter_cons_False by (cbn; tauto).
  rewrite (filter_keep_rest rest (subscriptionsRef s)); [by apply filter_tracked
                                                        | done |].
  eapply Forall_impl; [exact Hsub|]. simpl. lia.
Qed.

(** ** The device list updater *)

Lemma findIndex_lt {A} (p : A → bool) l :
  (findIndex p l < Z.of_nat (length l))%Z.
Proof.
  induction l as [|x l IH]; simpl; [lia|].
  destruct (p x); [lia|].
  destruct (Z.eqb_spec (findIndex p l) (-1)); lia.
Qed.

Lemma findIndex_snoc {A} (p : A → bool) l y :
  findIndex p l = (-1)%Z → p y = true →
  findIndex p (l ++ [y]) = Z.of_nat (length l).
Proof.
  induction l as [|x l IH]; simpl; intros Hn Hy; [by rewrite Hy|].
  destruct (p x); [done|]. pose proof (findIndex_ge p l) as Hge.
  destruct (Z.eqb_spec (findIndex p l) (-1)) as [E|E]; [|lia].
  rewrite IH by done.
  destruct (Z.eqb_spec (Z.of_nat (length l)) (-1)); lia.
Qed.

Lemma findIndex_insert {A} (p : A → bool) l y :
  findIndex p l ≠ (-1)%Z → p y = true →
  findIndex p (<[Z.to_nat (findIndex p l) := y]> l) = findIndex p l.
Proof.
  induction l as [|x l IH]; simpl; intros Hn Hy; [done|].
  destruct (p x) eqn:Hx.
  - simpl. by rewrite Hy.
  - pose proof (findIndex_ge p l) as Hge.
    destruct (Z.eqb_spec (findIndex p l) (-1)) as [E|E]; [done|].
    replace (Z.to_nat (findIndex p l + 1)) with (S (Z.to_nat (findIndex p l)))
      by lia.
    simpl. rewrite Hx, IH by done.
    by destruct (Z.eqb_spec (findIndex p l) (-1)).
Qed.

(** The updater of the device list puts the device in the list, adds at most
    one entry, and applying it twice with the same device is the same as
    applying it once. *)
Theorem updateDevices_idempotent d l :
  updateDevices d (updateDevices d l) = updateDevices d l
  ∧ d ∈ updateDevices d l
  ∧ length l ≤ length (updateDevices d l) ≤ S (length l).
Proof.
  unfold updateDevices.
  set (p := λ x : Device, String.eqb (device_id x) (device_id d)).
  assert (p d = true) as Hd by apply String.eqb_refl.
  destruct (Z.eqb_spec (findIndex p l) (-1)) as [E|E]; cbn [negb].
  - rewrite findIndex_snoc by done.
    destruct (Z.eqb_spec (Z.of_nat (length l)) (-1)) as [E'|E']; [lia|].
    cbn [negb]. rewrite Nat2Z.id. split_and!.
    + rewrite insert_app_r_alt by done. by rewrite Nat.sub_diag.
    + apply elem_of_app. right. by left.
    + rewrite length_app. simpl. lia.
    + rewrite length_app. simpl. lia.
  - rewrite findIndex_insert by done.
    destruct (Z.eqb_spec (findIndex p l) (-1)) as [E'|_]; [done|].
    cbn [negb].
    pose proof (findIndex_ge p l). pose proof (findIndex_lt p l).
    split_and!.
    + by rewrite list_insert_insert_eq.
    + eapply list_elem_of_lookup_2. apply list_lookup_insert_eq. lia.
    + rewrite length_insert. lia.
    + rewrite length_insert. lia.
Qed.

(** The updater leaves every entry with another identity at its position. *)
Theorem updateDevices_keeps_others d l i x :
  l !! i = Some x →
  device_id x ≠ device_id d →
  updateDevices d l !! i = Some x.
Proof.
  intros Hx Hne. unfold updateDevices.
  set (p := λ x : Device, String.eqb (device_id x) (device_id d)).
  destruct (Z.eqb_spec (findIndex p l) (-1)) as [E|E]; cbn [negb].
  - by apply lookup_app_l_Some.
  - destruct (findIndex_some p l E) as (y & Hy & Hp).
    unfold p in Hp. apply String.eqb_eq in Hp.
    rewrite list_lookup_insert_ne; [done|].
    intros <-. congruence.
Qed.

(** A second sighting of A leaves B in place. *)
Lemma updateDevices_keeps_others_witness :
  updateDevices peripheralA' [peripheralA; peripheralB] !! 1
  = Some peripheralB.
Proof.
  apply (updateDevices_keeps_others peripheralA' [peripheralA; peripheralB]
           1 peripheralB); [reflexivity | discriminate].
Defined.

(** ** Starting a scan *)

(** [startScan] changes nothing when there is no manager, when the radio is
    not PoweredOn, or when the permissions are neither held nor granted on
    request. *)
Theorem startScan_refused env radio granted scanThrows s :
  bleManagerRef s = false
  ∨ radio ≠ PoweredOn
  ∨ (r_permissionsGranted env = false ∧ granted = false) →
  startScan env radio granted scanThrows s = s.
Proof.
  unfold startScan, checkPrerequisites.
  intros [Hm|[Hr|[Hp Hg]]].
  - by rewrite Hm.
  - destruct (bleManagerRef s); [|done]. by destruct radio.
  - rewrite Hp, Hg. destruct (bleManagerRef s); [|done].
    by destruct (isPoweredOn radio).
Qed.

(** A scan requested with the radio off. *)
Lemma startScan_refused_witness :
  startScan (renderOf mounted) PoweredOff true false mounted = mounted.
Proof.
  apply startScan_refused. right. left. discriminate.
Defined.

Lemma pressScan_startScan radio granted scanThrows s :
  pressScan radio granted scanThrows s
  = if canStartScan s then startScan (renderOf s) radio granted scanThrows s
    else s.
Proof.
  unfold pressScan, canStartScan.
  destruct (isScanning s); [by rewrite andb_false_r|].
  by destruct (isPoweredOn (bluetoothState s) && permissionsGranted s).
Qed.

(** While a scan is running, a press on the scan button does nothing: the
    button is disabled, and so its [stopScan] branch is never taken. *)
Theorem pressScan_never_stops radio granted scanThrows s :
  isScanning s = true →
  pressScan radio granted scanThrows s = s.
Proof.
  intros H. rewrite pressScan_startScan. unfold canStartScan.
  by rewrite H, andb_false_r.
Qed.

(** A press during the sample scan. *)
Lemma pressScan_never_stops_witness :
  isScanning scanning = true
  ∧ pressScan PoweredOn true false scanning = scanning.
Proof.
  split; [reflexivity|]. by apply pressScan_never_stops.
Defined.

(** ** A scan error leaves the auto-stop timer armed *)

(** A scan error leaves the auto-stop timer armed.  When, in a store reached
    from mounting with that timer pending, the scan fails and a new scan is
    started, the new scan arms its own timer and the old one stays pending;
    when the old timer expires it stops the new scan and cancels the new
    timer. *)
Theorem stale_scan_timer_stops_next_scan
  radio granted events t error granted' attempt :
  let s := run radio granted events in
  let s2 := foldl handle s [ScanResult (Some error) None;
                            PressScan PoweredOn granted' false] in
  let s3 := handle s2 (TimerFires t attempt) in
  scanTimeoutRef s = Some t →
  is_Some (timers s !! t) →
  bluetoothState s = PoweredOn →
  permissionsGranted s = true →
  isScanning s2 = true
  ∧ scanTimeoutRef s2 = Some (nextTimer s)
  ∧ timers s2 !! nextTimer s = Some (mkTimer 20000 ScanTimeout)
  ∧ is_Some (timers s2 !! t)
  ∧ isScanning s3 = false
  ∧ deviceScan s3 = false
  ∧ timers s3 !! nextTimer s = None.
Proof.
  intros s s2 s3 Href [tm Htm] Hbt Hperm.
  pose proof (Inv_run radio granted events) as H. fold s in H.
  clearbody s. inv_fields H.
  destruct (Hscan t Href) as [Hlt Hcb]. specialize (Hcb tm Htm).
  unfold s3, s2. cbn [foldl handle scanCallback].
  unfold pressScan, canStartScan, startScan, checkPrerequisites, fireTimer.
  destruct s as [? ? ? ? ? ? ? bt perm ? ? sref ? ? tms nt ? ? ? ?].
  simpl in *. subst. simpl.
  rewrite !(lookup_insert_ne _ nt t) by lia. rewrite Htm. simpl.
  rewrite Hcb. simpl. rewrite lookup_insert_eq.
  split_and!; try done. by rewrite lookup_delete_eq.
Qed.

(** ** A drop of the link *)


(** ** Retrying *)

(** A reconnect timer armed under a render with [autoReconnect] set retries
    whatever the switch says by the time it expires: when the attempt fails
    again, and not by a cancellation, a new timer is armed for the same
    device under the same render. *)
Theorem reconnect_ignores_toggle env device attempt error t value s :
  bleManagerRef s = true →
  timers s !! t = Some (mkTimer 5000 (ReconnectTimeout env device)) →
  t < nextTimer s →
  r_autoReconnect env = true →
  failureOf attempt = Some error →
  isCancellation error = false →
  let s' := fireTimer t attempt (setAutoReconnect value s) in
  autoReconnect s' = value
  ∧ connectionStatus s' = Reconnecting
  ∧ reconnectTimeoutRef s' = Some (nextTimer s)
  ∧ timers s' !! nextTimer s
    = Some (mkTimer 5000 (ReconnectTimeout env device))
  ∧ timers s' !! t = None.
Proof.
  intros Hman Ht Hlt Hauto Hfail Hcancel s'. unfold s', fireTimer.
  replace (timers (setAutoReconnect value s)) with (timers s)
    by (by destruct s).
  rewrite Ht. cbn [callback].
  rewrite connectToDevice_unfold by (by destruct s).
  assert (connectFailed env device error
            (beginConnect env (clearTimeout t (setAutoReconnect value s)))
          = match attempt with
            | IsConnectedRejected e | ConnectRejected e
            | DiscoveryRejected e =>
                connectFailed env device e
                  (beginConnect env
                     (clearTimeout t (setAutoReconnect value s)))
            | AlreadyConnected services =>
                registerMonitors (establishedOf services)
                  (connectedStore device
                     (beginConnect env
                        (clearTimeout t (setAutoReconnect value s))))
            | Linked connectedDev services =>
                registerMonitors (establishedOf services)
                  (setupConnectionMonitoring env connectedDev
                     (connectedStore connectedDev
                        (beginConnect env
                           (clearTimeout t (setAutoReconnect value s)))))
            end) as <-.
  { destruct attempt; simpl in Hfail; try discriminate; by inversion Hfail. }
  unfold connectFailed. fold (isCancellation error).
  rewrite Hauto, Hcancel. cbn [andb negb].
  unfold beginConnect, stopScan.
  destruct s as [? ? ? ? ? ? ? ? ? ? ? [ts|] ? ? ? ? ? ? ? ?];
    simpl in *; subst;
    destruct (r_isScanning env); simpl;
    repeat split; try reflexivity;
    rewrite ?lookup_insert_eq; try reflexivity;
    rewrite lookup_insert_ne by lia;
    rewrite ?lookup_delete_eq; try reflexivity.
  all: destruct (decide (ts = t)) as [->|Hne];
    [by rewrite lookup_delete_eq
    | rewrite lookup_delete_ne by done; by rewrite lookup_delete_eq].
Qed.

(** ** [connectToDevice] keeps the lists *)

Lemma connect_keeps_lists env device attempt s :
  let s' := connectToDevice env device attempt s in
  devices s' = devices s
  ∧ notifications s' = notifications s
  ∧ autoReconnect s' = autoReconnect s
  ∧ bluetoothState s' = bluetoothState s.
Proof.
  intros s'. unfold s'. destruct (bleManagerRef s) eqn:Hman.
  2: { unfold connectToDevice. by rewrite Hman. }
  rewrite connectToDevice_unfold by done.
  assert (devices (beginConnect env s) = devices s
          ∧ notifications (beginConnect env s) = notifications s
          ∧ autoReconnect (beginConnect env s) = autoReconnect s
          ∧ bluetoothState (beginConnect env s) = bluetoothState s)
    as (<- & <- & <- & <-).
  { unfold beginConnect, stopScan.
    destruct s as [? ? ? ? ? ? ? ? ? [] ? [t0|] ? ? ? ? ? ? ? ?];
      destruct (r_isScanning env); repeat split; reflexivity. }
  generalize (beginConnect env s) as s0. intros s0.
  destruct attempt; rewrite ?registerMonitors_closed;
    unfold connectFailed; try fold (isCancellation err);
    try destruct (r_autoReconnect env && negb (isCancellation err));
    destruct s0; repeat split; reflexivity.
Qed.

(** The premises hold after the first press on the scan button. *)
Lemma stale_scan_timer_stops_next_scan_witness :
  scanTimeoutRef (run PoweredOn true [PressScan PoweredOn true false])
  = Some 1
  ∧ isScanning
      (foldl handle (run PoweredOn true [PressScan PoweredOn true false])
         [ScanResult (Some (mkError None)) None;
          PressScan PoweredOn true false;
          TimerFires 1 (ConnectRejected timeoutError)])
    = false.
Proof.
  split; [vm_compute; reflexivity|].
  apply (stale_scan_timer_stops_next_scan PoweredOn true
           [PressScan PoweredOn true false] 1 (mkError None) true
           (ConnectRejected timeoutError)).
  - vm_compute; reflexivity.
  - vm_compute; eauto.
  - vm_compute; reflexivity.
  - vm_compute; reflexivity.
Defined.

(** The premises hold for the pending reconnect to A. *)
Lemma reconnect_ignores_toggle_witness :
  connectionStatus
    (fireTimer 1 (ConnectRejected timeoutError)
       (setAutoReconnect false reconnectingA))
  = Reconnecting.
Proof.
  apply (reconnect_ignores_toggle (renderOf mounted) peripheralA
           (ConnectRejected timeoutError) timeoutError 1 false reconnectingA).
  - vm_compute; reflexivity.
  - vm_compute; reflexivity.
  - vm_compute; lia.
  - vm_compute; reflexivity.
  - vm_compute; reflexivity.
  - vm_compute; reflexivity.
Defined.

(** ** Subscriptions are registered monitors *)

Lemma lookupListener_app_fresh h n l l' :
  Forall (λ hl : nat * Listener, hl.1 < n) l → n ≤ h →
  lookupListener h (l ++ l') = lookupListener h l'.
Proof.
  intros Hl Hh. induction Hl as [|[h' x] l Hx _ IH]; [done|].
  simpl in *. destruct (Nat.eqb_spec h' h); [lia | done].
Qed.

Lemma lookupListener_zip_seq n i (ls : list Listener) x :
  ls !! i = Some x →
  lookupListener (n + i) (zip (seq n (length ls)) ls) = Some x.
Proof.
  revert n i. induction ls as [|y ls IH]; intros n i Hi; [done|].
  destruct i as [|i]; simpl in *.
  - rewrite Nat.add_0_r, Nat.eqb_refl. congruence.
  - destruct (Nat.eqb_spec n (n + S i)); [lia|].
    replace (n + S i) with (S n + i) by lia. by apply IH.
Qed.

(** In every store reached from mounting, the [i]-th characteristic that
    [subscribeToCharacteristics] subscribes to is registered with the adapter
    under a fresh handle, as a monitor of its service and characteristic,
    and that handle is the [i]-th one appended to [subscriptionsRef]. *)
Theorem subscriptions_are_live radio granted events device services i e :
  let s := run radio granted events in
  let s' := (subscribeToCharacteristics device (Resolved services) s).1 in
  established services !! i = Some e →
  liveListener (nextHandle s + i) s' = Some (monitorOf e)
  ∧ subscriptionsRef s' !! (length (subscriptionsRef s) + i)
    = Some (nextHandle s + i).
Proof.
  intros s s' He. pose proof (Inv_run radio granted events) as H. fold s in H.
  clearbody s. unfold s'.
  rewrite (subscribeToCharacteristics_store device (Resolved services) s).
  cbn [establishedOf]. split.
  - unfold liveListener. rewrite registerMonitors_listeners. fold monitorOf.
    rewrite (lookupListener_app_fresh _ (nextHandle s))
      by (by apply Inv_handles_fresh || lia).
    rewrite <- (length_fmap monitorOf). apply lookupListener_zip_seq.
    by rewrite list_lookup_fmap, He.
  - rewrite registerMonitors_subscriptionsRef.
    rewrite lookup_app_r by lia.
    replace (length (subscriptionsRef s) + i - length (subscriptionsRef s))
      with i by lia.
    apply lookup_seq. split; [done|]. by eapply lookup_lt_Some.
Qed.

(** The second subscription of the sample services is to 2A3A. *)
Lemma subscriptions_are_live_witness :
  liveListener (nextHandle (run PoweredOn true sampleRun) + 1)
    (subscribeToCharacteristics peripheralB (Resolved sampleServices)
       (run PoweredOn true sampleRun)).1
  = Some (CharacteristicMonitor "180D" "2A3A").
Proof.
  apply (subscriptions_are_live PoweredOn true sampleRun peripheralB
           sampleServices 1
           ("180D", mkCharacteristicEntry
                      (mkCharacteristic "2A3A" true None) false)).
  vm_compute; reflexivity.
Defined.


(** ** The status and the connected device *)

Lemma statusAgrees_same s s' :
  connectionStatus s' = connectionStatus s →
  connectedDevice s' = connectedDevice s →
  statusAgrees s → statusAgrees s'.
Proof. unfold statusAgrees. by intros -> ->. Qed.

Lemma statusAgrees_stopScan s : statusAgrees s → statusAgrees (stopScan s).
Proof.
  apply statusAgrees_same; unfold stopScan;
    by destruct s as [? ? ? ? ? ? ? ? ? [] ? [t|] ? ? ? ? ? ? ? ?].
Qed.

Lemma statusAgrees_startScan env radio granted scanThrows s :
  statusAgrees s → statusAgrees (startScan env radio granted scanThrows s).
Proof.
  apply statusAgrees_same; unfold startScan, checkPrerequisites;
    destruct s as [? ? ? ? ? ? ? ? ? [] ? ? ? ? ? ? ? ? ? ?]; simpl;
    try reflexivity;
    destruct (isPoweredOn radio); simpl; try reflexivity;
    by destruct (r_permissionsGranted env), granted, scanThrows.
Qed.

Lemma statusAgrees_clearTimeout t s :
  statusAgrees s → statusAgrees (clearTimeout t s).
Proof. apply statusAgrees_same; by destruct s. Qed.

Lemma statusAgrees_connectToDevice env device attempt s :
  statusAgrees s → statusAgrees (connectToDevice env device attempt s).
Proof.
  intros H. destruct (bleManagerRef s) eqn:Hman.
  2: { unfold connectToDevice. by rewrite Hman. }
  rewrite connectToDevice_unfold by done. clear H.
  generalize (beginConnect env s) as s0. intros s0.
  destruct attempt; rewrite ?registerMonitors_closed;
    unfold connectFailed; try fold (isCancellation err);
    try destruct (r_autoReconnect env && negb (isCancellation err));
    destruct s0; unfold statusAgrees; simpl; eauto.
Qed.

Lemma statusAgrees_disconnect env cancel s :
  statusAgrees s → statusAgrees (disconnect env cancel s).
Proof.
  intros H. unfold disconnect. destruct (disconnectReturns env s); [done|].
  unfold disconnectSettle, disconnectRelease.
  rewrite clearSubscriptions_closed.
  destruct cancel as [[]|err].
  - by destruct s as [? ? ? ? ? ? ? ? ? ? [t|] ? ? ? ? ? ? ? ? ?].
  - revert H. apply statusAgrees_same;
      by destruct s as [? ? ? ? ? ? ? ? ? ? [t|] ? ? ? ? ? ? ? ? ?].
Qed.

Lemma statusAgrees_disconnectedCallback env device error disconnectedDevice s :
  statusAgrees (disconnectedCallback env device error disconnectedDevice s).
Proof.
  unfold disconnectedCallback. rewrite clearSubscriptions_closed.
  by destruct (r_autoReconnect env && negb (mentionsCancelled error)), s.
Qed.

Lemma statusAgrees_stateListener env newState s :
  statusAgrees s → statusAgrees (stateListener env newState s).
Proof.
  intros H. unfold stateListener, updateConnectionStatusFromBluetoothState.
  destruct newState; try (by destruct s).
  - destruct (r_isScanning env); [|by destruct s].
    apply statusAgrees_stopScan. by destruct s.
  - destruct (negb (r_isConnected env)); [by destruct s|].
    revert H. apply statusAgrees_same; by destruct s.
Qed.

Lemma statusAgrees_foldl {A} (f : Component → A → Component) l s :
  (∀ s x, statusAgrees s → statusAgrees (f s x)) →
  statusAgrees s → statusAgrees (foldl f s l).
Proof.
  intros Hf. revert s. induction l as [|x l IH]; intros s H; [done|].
  simpl. by apply IH, Hf.
Qed.

Lemma statusAgrees_handle s e : statusAgrees s → statusAgrees (handle s e).
Proof.
  intros H. destruct e; simpl.
  - rewrite pressScan_startScan. destruct (canStartScan s); [|done].
    by apply statusAgrees_startScan.
  - unfold pressDevice. destruct (devices s !! i); [|done].
    destruct (isConnected s || _); [done|].
    by apply statusAgrees_connectToDevice.
  - unfold pressDisconnect. destruct (isConnected s); [|done].
    by apply statusAgrees_disconnect.
  - revert H. apply statusAgrees_same; by destruct s.
  - unfold scanCallback. destruct error.
    + revert H. apply statusAgrees_same; by destruct s.
    + destruct device; [|done].
      revert H. apply statusAgrees_same; by destruct s.
  - unfold fireTimer. destruct (timers s !! t) as [tm|]; [|done].
    destruct (callback tm).
    + by apply statusAgrees_stopScan, statusAgrees_clearTimeout.
    + by apply statusAgrees_connectToDevice, statusAgrees_clearTimeout.
  - unfold radioStateChanged. apply statusAgrees_foldl; [|done].
    intros s0 [h l] H0. simpl. destruct l; try done.
    destruct (liveListener h s0); [|done].
    by apply statusAgrees_stateListener.
  - unfold peripheralDisconnected. apply statusAgrees_foldl; [|done].
    intros s0 [h l] H0. simpl. destruct l; try done.
    destruct (liveListener h s0); [|done].
    destruct (String.eqb _ _); [|done].
    apply statusAgrees_disconnectedCallback.
  - unfold characteristicChanged. destruct (liveListener h s) as [[]|];
      try done.
    unfold monitorCallback. destruct error; [done|].
    destruct char as [c|]; [|done]. destruct (char_value c) as [v|]; [|done].
    destruct (String.eqb v ""); [done|].
    revert H. apply statusAgrees_same; by destruct s.
Qed.

Lemma statusAgrees_run radio granted events :
  statusAgrees (run radio granted events).
Proof.
  unfold run. apply (statusAgrees_foldl handle); [apply statusAgrees_handle|].
  destruct radio; vm_compute; done.
Qed.

(** In every store reached from mounting, the status 'Connection Failed' or
    'Reconnecting...' comes with no connected device, and the status
    'Connected' with one. *)
Theorem status_agrees_with_device radio granted events :
  let s := run radio granted events in
  match connectionStatus s with
  | Reconnecting | ConnectionFailed => connectedDevice s = None
  | Connected => is_Some (connectedDevice s)
  | _ => True
  end.
Proof. apply statusAgrees_run. Qed.

(** In every store reached from mounting whose status is 'Reconnecting...'
    or 'Connection Failed', [disconnect] and the disconnect button change
    nothing. *)
Theorem disconnect_idle_while_reconnecting radio granted events cancel :
  let s := run radio granted events in
  connectionStatus s = Reconnecting ∨ connectionStatus s = ConnectionFailed →
  disconnect (renderOf s) cancel s = s
  ∧ pressDisconnect cancel s = s.
Proof.
  intros s Hs.
  pose proof (statusAgrees_run radio granted events) as H.
  fold s in H. clearbody s. unfold statusAgrees in H.
  assert (connectedDevice s = None) as Hnone.
  { destruct Hs as [Hs|Hs]; by rewrite Hs in H. }
  assert (disconnect (renderOf s) cancel s = s) as Hd.
  { by apply disconnect_returns. }
  split; [done|]. unfold pressDisconnect. by destruct (isConnected s).
Qed.

(** After four events of the sample run the reconnect to A is pending. *)
Lemma disconnect_idle_while_reconnecting_witness :
  connectionStatus (run PoweredOn true (take 4 sampleRun)) = Reconnecting
  ∧ disconnect (renderOf (run PoweredOn true (take 4 sampleRun)))
      (Resolved ()) (run PoweredOn true (take 4 sampleRun))
    = run PoweredOn true (take 4 sampleRun).
Proof.
  split; [vm_compute; reflexivity|].
  refine (proj1 (disconnect_idle_while_reconnecting PoweredOn true
                   (take 4 sampleRun) (Resolved ()) _)).
  left. vm_compute; reflexivity.
Defined.

(** ** What writes the lists *)

Lemma lists_foldl {A} (f : Component → A → Component) l s :
  (∀ s x, devices (f s x) = devices s
          ∧ notifications (f s x) = notifications s) →
  devices (foldl f s l) = devices s
  ∧ notifications (foldl f s l) = notifications s.
Proof.
  intros Hf. revert s. induction l as [|x l IH]; intros s; [done|].
  simpl. destruct (IH (f s x)) as [-> ->]. apply Hf.
Qed.

Lemma stopScan_lists s :
  devices (stopScan s) = devices s
  ∧ notifications (stopScan s) = notifications s.
Proof.
  unfold stopScan.
  by destruct s as [? ? ? ? ? ? ? ? ? [] ? [t|] ? ? ? ? ? ? ? ?].
Qed.

Lemma stateListener_lists env newState s :
  devices (stateListener env newState s) = devices s
  ∧ notifications (stateListener env newState s) = notifications s.
Proof.
  unfold stateListener, updateConnectionStatusFromBluetoothState.
  destruct newState; try (by destruct s).
  - destruct (r_isScanning env); [|by destruct s].
    destruct (stopScan_lists
                (setConnectionStatus BluetoothOff
                   (setBluetoothState PoweredOff s))) as [-> ->].
    by destruct s.
  - destruct (negb (r_isConnected env)); by destruct s.
Qed.

Lemma disconnectedCallback_lists env device error disconnectedDevice s :
  devices (disconnectedCallback env device error disconnectedDevice s)
  = devices s
  ∧ notifications (disconnectedCallback env device error disconnectedDevice s)
    = notifications s.
Proof.
  unfold disconnectedCallback. rewrite clearSubscriptions_closed.
  by destruct (r_autoReconnect env && negb (mentionsCancelled error)), s.
Qed.

Lemma fireTimer_lists t attempt s :
  devices (fireTimer t attempt s) = devices s
  ∧ notifications (fireTimer t attempt s) = notifications s.
Proof.
  unfold fireTimer. destruct (timers s !! t) as [tm|]; [|done].
  destruct (callback tm).
  - destruct (stopScan_lists (clearTimeout t s)) as [-> ->]. by destruct s.
  - destruct (connect_keeps_lists env device attempt (clearTimeout t s))
      as (-> & -> & _). by destruct s.
Qed.

Lemma startScan_log env radio granted scanThrows s :
  notifications (startScan env radio granted scanThrows s) = notifications s.
Proof.
  unfold startScan, checkPrerequisites.
  destruct s as [? ? ? ? ? ? ? ? ? [] ? ? ? ? ? ? ? ? ? ?]; simpl;
    try reflexivity.
  destruct (isPoweredOn radio); simpl; try reflexivity.
  by destruct (r_permissionsGranted env), granted, scanThrows.
Qed.

(** The log is written only by a value update and by a press on the
    disconnect button: every other event, a drop of the link and a new
    connect among them, leaves it as it is. *)
Theorem log_written_only_by e s :
  writesLog e = false →
  notifications (handle s e) = notifications s.
Proof.
  intros He. destruct e; simpl in *; try discriminate.
  - rewrite pressScan_startScan. destruct (canStartScan s); [|done].
    apply startScan_log.
  - unfold pressDevice. destruct (devices s !! i); [|done].
    destruct (isConnected s || _); [done|]. apply connect_keeps_lists.
  - by destruct s.
  - unfold scanCallback. destruct error; [by destruct s|].
    destruct device; [by destruct s | done].
  - apply fireTimer_lists.
  - unfold radioStateChanged. apply lists_foldl.
    intros s0 [h l]. simpl. destruct l; try done.
    destruct (liveListener h s0); [|done]. apply stateListener_lists.
  - unfold peripheralDisconnected. apply lists_foldl.
    intros s0 [h l]. simpl. destruct l; try done.
    destruct (liveListener h s0); [|done].
    destruct (String.eqb _ _); [|done]. apply disconnectedCallback_lists.
Qed.

(** A drop of the link to B keeps the log. *)
Lemma log_written_only_by_witness :
  notifications
    (handle (run PoweredOn true sampleRun)
       (PeripheralDropped "BB:02" None None))
  = notifications (run PoweredOn true sampleRun).
Proof. by apply log_written_only_by. Defined.

(** The device list is written only by a press on the scan button and by a
    scan result. *)
Theorem devices_written_only_by e s :
  writesDevices e = false →
  devices (handle s e) = devices s.
Proof.
  intros He. destruct e; simpl in *; try discriminate.
  - unfold pressDevice. destruct (devices s !! i); [|done].
    destruct (isConnected s || _); [done|]. apply connect_keeps_lists.
  - unfold pressDisconnect. destruct (isConnected s); [|done].
    unfold disconnect. destruct (disconnectReturns _ s); [done|].
    unfold disconnectSettle, disconnectRelease.
    rewrite clearSubscriptions_closed.
    by destruct cancel as [[]|err];
      destruct s as [? ? ? ? ? ? ? ? ? ? [t|] ? ? ? ? ? ? ? ? ?].
  - by destruct s.
  - apply fireTimer_lists.
  - unfold radioStateChanged. apply lists_foldl.
    intros s0 [h l]. simpl. destruct l; try done.
    destruct (liveListener h s0); [|done]. apply stateListener_lists.
  - unfold peripheralDisconnected. apply lists_foldl.
    intros s0 [h l]. simpl. destruct l; try done.
    destruct (liveListener h s0); [|done].
    destruct (String.eqb _ _); [|done]. apply disconnectedCallback_lists.
  - unfold characteristicChanged. destruct (liveListener h s) as [[]|];
      try done.
    unfold monitorCallback. destruct error; [done|].
    destruct char as [c|]; [|done]. destruct (char_value c) as [v|]; [|done].
    destruct (String.eqb v ""); [done | by destruct s].
Qed.

(** A disconnect keeps the device list. *)
Lemma devices_written_only_by_witness :
  devices
    (handle (run PoweredOn true sampleRun)
       (PressDisconnect (Resolved ())))
  = devices (run PoweredOn true sampleRun).
Proof. by apply devices_written_only_by. Defined.

(** ** Mounting *)

(** When [bleManager.state()] rejects during [initializeBLE], the manager is
    kept but no state listener is registered and the permissions are not
    asked for: the status stays 'Checking Bluetooth...' and a later change of
    the radio is not seen. *)
Theorem mount_rejected_is_deaf err granted newState :
  let s := mount (Rejected err) granted in
  bleManagerRef s = true
  ∧ connectionStatus s = CheckingBluetooth
  ∧ permissionsGranted s = false
  ∧ listeners s = []
  ∧ radioStateChanged newState s = s.
Proof. by split_and!. Qed.

(** ** Permissions *)

(** [requestPermissions] answers true exactly when the API level is below 23
    or the request resolved with every permission granted; whenever it asks,
    it asks for fine location. *)
Theorem requestPermissions_true_iff androidVersion requestMultiple :
  requestPermissions androidVersion requestMultiple = true
  ↔ (androidVersion < 23)%Z
    ∨ ∃ permissions granted,
        permissionsFor androidVersion = Some permissions
        ∧ ACCESS_FINE_LOCATION ∈ permissions
        ∧ requestMultiple permissions = Resolved granted
        ∧ Forall (λ r, r = GRANTED) granted.
Proof.
  unfold requestPermissions, permissionsFor.
  assert (∀ l, forallb isGranted l = true ↔ Forall (λ r, r = GRANTED) l)
    as Hall.
  { intros l. rewrite forallb_forall, Forall_forall.
    split; intros H r Hr.
    - apply list_elem_of_In in Hr. specialize (H r Hr). by destruct r.
    - apply list_elem_of_In in Hr. by rewrite (H r Hr). }
  destruct (Z.leb_spec 31 androidVersion) as [H31|H31];
    [|destruct (Z.leb_spec 23 androidVersion) as [H23|H23]].
  - destruct (requestMultiple _) as [granted|e] eqn:Hr.
    + rewrite Hall. split.
      * intros Hg. right. eexists _, granted. split_and!; try done.
        by repeat constructor.
      * intros [?|(ps & g & [= <-] & _ & Hg & Hf)]; [lia|]. congruence.
    + split; [done|]. intros [?|(ps & g & [= <-] & _ & Hg & Hf)]; [lia|].
      congruence.
  - destruct (requestMultiple _) as [granted|e] eqn:Hr.
    + rewrite Hall. split.
      * intros Hg. right. eexists _, granted. split_and!; try done.
        by repeat constructor.
      * intros [?|(ps & g & [= <-] & _ & Hg & Hf)]; [lia|]. congruence.
    + split; [done|]. intros [?|(ps & g & [= <-] & _ & Hg & Hf)]; [lia|].
      congruence.
  - split; [by left | done].
Qed.

(** ** A press on a device stops the scan *)

Lemma beginConnect_stops_scan env s :
  r_isScanning env = true →
  bleManagerRef s = true →
  isScanning (beginConnect env s) = false
  ∧ deviceScan (beginConnect env s) = false
  ∧ timers (beginConnect env s) = clearRef (scanTimeoutRef s) (timers s)
  ∧ nextTimer (beginConnect env s) = nextTimer s.
Proof.
  intros He Hman. unfold beginConnect, stopScan. rewrite He.
  destruct s as [? ? ? ? ? ? ? ? ? ? ? [t|] ? ? ? ? ? ? ? ?];
    simpl in *; subst; repeat split; reflexivity.
Qed.

Lemma connect_outcome_keeps_scan env device attempt s0 :
  let s' :=
    match attempt with
    | IsConnectedRejected e | ConnectRejected e | DiscoveryRejected e =>
        connectFailed env device e s0
    | AlreadyConnected services =>
        registerMonitors (establishedOf services) (connectedStore device s0)
    | Linked connectedDev services =>
        registerMonitors (establishedOf services)
          (setupConnectionMonitoring env connectedDev
             (connectedStore connectedDev s0))
    end in
  isScanning s' = isScanning s0 ∧ deviceScan s' = deviceScan s0.
Proof.
  destruct attempt; simpl; rewrite ?registerMonitors_closed;
    unfold connectFailed; try fold (isCancellation err);
    try destruct (r_autoReconnect env && negb (isCancellation err));
    destruct s0; split; reflexivity.
Qed.

(** In every store reached from mounting, a press on a device of the list
    while a scan is running ends the scan, whatever the connect comes to:
    [isScanning] and the adapter's scan are off afterwards and the timer in
    [scanTimeoutRef] is no longer pending. *)
Theorem pressDevice_stops_scan radio granted events i item attempt :
  let s := run radio granted events in
  let s' := pressDevice i attempt s in
  devices s !! i = Some item →
  isConnected s = false →
  bluetoothState s = PoweredOn →
  isScanning s = true →
  isScanning s' = false
  ∧ deviceScan s' = false
  ∧ match scanTimeoutRef s with
    | Some t => timers s' !! t = None
    | None => True
    end.
Proof.
  intros s s' Hitem Hc Hbt Hscanning.
  pose proof (Inv_run radio granted events) as H. fold s in H.
  clearbody s. unfold s', pressDevice. rewrite Hitem, Hc, Hbt.
  cbn [isPoweredOn negb orb].
  pose proof (inv_manager s H) as Hman.
  destruct (beginConnect_stops_scan (renderOf s) s Hscanning Hman)
    as (Hb1 & Hb2 & Hb3 & Hb4).
  rewrite connectToDevice_unfold by done.
  destruct (connect_outcome_keeps_scan (renderOf s) item attempt
              (beginConnect (renderOf s) s)) as [Hk1 Hk2].
  cbv zeta in Hk1, Hk2. rewrite Hb1 in Hk1. rewrite Hb2 in Hk2.
  split; [done|]. split; [done|].
  destruct (scanTimeoutRef s) as [t|] eqn:Href; [|done].
  destruct (inv_scanTimeout s H t Href) as [Hlt _].
  assert (timers (beginConnect (renderOf s) s) !! t = None) as Hgone.
  { rewrite Hb3. apply lookup_delete_eq. }
  rewrite <- Hgone.
  assert (t < nextTimer (beginConnect (renderOf s) s)) as Hlt' by lia.
  generalize dependent (beginConnect (renderOf s) s). intros s0 _ _ _ _ _ _ _ Hlt'.
  destruct attempt.
  - by apply connectFailed_frame.
  - apply (TimerFrame_trans t _ (connectedStore item s0));
      [apply connectedStore_frame | apply registerMonitors_frame].
  - by apply connectFailed_frame.
  - by apply connectFailed_frame.
  - apply (TimerFrame_trans t _ (connectedStore connectedDev s0));
      [apply connectedStore_frame|].
    eapply TimerFrame_trans;
      [apply setupConnectionMonitoring_frame | apply registerMonitors_frame].
Qed.

(** The premises hold in the sample run when A is pressed during the
    scan. *)
Lemma pressDevice_stops_scan_witness :
  isScanning (run PoweredOn true (take 3 sampleRun)) = true
  ∧ isScanning
      (pressDevice 0 (ConnectRejected timeoutError)
         (run PoweredOn true (take 3 sampleRun)))
    = false.
Proof.
  split; [vm_compute; reflexivity|].
  refine (proj1 (pressDevice_stops_scan PoweredOn true (take 3 sampleRun) 0
                   peripheralA (ConnectRejected timeoutError) _ _ _ _));
    vm_compute; reflexivity.
Defined.

(** ** Runs in which the awaits interleave *)

Lemma Inv_advance s st : Inv s → Inv (advance s st).
Proof.
  intros H. destruct st; simpl.
  - by apply Inv_handle.
  - destruct (timers s !! t) as [tm|]; [|done].
    pose proof (Inv_clearTimeout t s H) as Hc.
    destruct (callback tm); [by apply Inv_stopScan|].
    destruct (negb _); [done | by apply Inv_beginConnect].
  - destruct (negb _); [done | by apply Inv_beginConnect].
  - by apply Inv_connectedStore.
  - by apply Inv_setupConnectionMonitoring, Inv_connectedStore.
  - by apply Inv_connectFailed.
  - rewrite subscribeToCharacteristics_store. by apply Inv_registerMonitors.
  - by apply Inv_startScan.
  - destruct (disconnectReturns env s); [done|].
    apply Inv_clearSubscriptions.
    destruct (reconnectTimeoutRef s); [by apply Inv_clearTimeout | done].
  - destruct cancel; [|done].
    by apply Inv_clearLog, Inv_setConnectionStatus, Inv_resetConnection.
Qed.

Lemma statusAgrees_advance s st : statusAgrees s → statusAgrees (advance s st).
Proof.
  intros H. destruct st; simpl.
  - by apply statusAgrees_handle.
  - destruct (timers s !! t) as [tm|]; [|done].
    pose proof (statusAgrees_clearTimeout t s H) as Hc.
    destruct (callback tm); [by apply statusAgrees_stopScan|].
    destruct (negb _); [done|]. unfold beginConnect.
    destruct (r_isScanning env); [apply statusAgrees_stopScan|];
      by destruct (clearTimeout t s).
  - destruct (negb _); [done|]. unfold beginConnect.
    destruct (r_isScanning env); [apply statusAgrees_stopScan|];
      by destruct s.
  - destruct s. unfold statusAgrees. simpl. eauto.
  - destruct s. unfold statusAgrees. simpl. eauto.
  - unfold connectFailed. fold (isCancellation error).
    by destruct (r_autoReconnect env && negb (isCancellation error)), s.
  - rewrite subscribeToCharacteristics_store, registerMonitors_closed.
    revert H. apply statusAgrees_same; by destruct s.
  - by apply statusAgrees_startScan.
  - destruct (disconnectReturns env s); [done|].
    unfold disconnectRelease. rewrite clearSubscriptions_closed.
    revert H. apply statusAgrees_same;
      by destruct s as [? ? ? ? ? ? ? ? ? ? [t|] ? ? ? ? ? ? ? ? ?].
  - destruct cancel; [by destruct s | done].
Qed.


Lemma Inv_interleaved radio granted stretches :
  Inv (interleaved radio granted stretches).
Proof.
  unfold interleaved. apply Inv_foldl; [apply Inv_advance | apply Inv_mount].
Qed.

Lemma statusAgrees_interleaved radio granted stretches :
  statusAgrees (interleaved radio granted stretches).
Proof.
  unfold interleaved.
  apply (statusAgrees_foldl advance); [apply statusAgrees_advance|].
  destruct radio; vm_compute; done.
Qed.

(** However the stretches of the handlers interleave, in the store they
    reach [isConnected] is set exactly when a connected device is recorded,
    the log holds at most 100 notifications, no two devices of the list
    share an identity, the listeners registered with the adapter are the
    state listener of the mount followed by those recorded in
    [subscriptionsRef], each once, and the status agrees with the connected
    device. *)
Theorem invariants_hold_between_awaits radio granted stretches :
  let s := interleaved radio granted stretches in
  (isConnected s = true ↔ is_Some (connectedDevice s))
  ∧ length (notifications s) ≤ 100
  ∧ NoDup (device_id <$> devices s)
  ∧ fst <$> listeners s = 1 :: subscriptionsRef s
  ∧ NoDup (fst <$> listeners s)
  ∧ match connectionStatus s with
    | Reconnecting | ConnectionFailed => connectedDevice s = None
    | Connected => is_Some (connectedDevice s)
    | _ => True
    end.
Proof.
  intros s. pose proof (Inv_interleaved radio granted stretches) as H.
  pose proof (statusAgrees_interleaved radio granted stretches) as Hst.
  fold s in H, Hst. clearbody s. inv_fields H.
  assert (fst <$> listeners s = 1 :: subscriptionsRef s) as Hl
    by (by rewrite Hlis, fmap_cons, Hfst).
  split_and!; try done.
  - rewrite Hconn. apply bool_decide_eq_true.
  - rewrite Hl. constructor; [|done].
    intros Hin. rewrite Forall_forall in Hsub. specialize (Hsub _ Hin).
    simpl in Hsub. lia.
Qed.


(** However the stretches interleaved before, the first stretch of
    [disconnect] leaves only the state listener of the mount registered,
    empties [subscriptionsRef], cancels the timer in [reconnectTimeoutRef]
    and leaves the session and the log as they were.  The second stretch
    leaves the listeners, [subscriptionsRef] and the timers of the store
    [later] it finds: what was registered while [cancelDeviceConnection] was
    awaited stays registered. *)
Theorem disconnect_release_leaves_state_listener
  radio granted stretches cancel later :
  let s := interleaved radio granted stretches in
  let s1 := disconnectRelease s in
  let s2 := disconnectSettle cancel later in
  listeners s1 = [(1, StateListener (renderOf initialComponent))]
  ∧ subscriptionsRef s1 = []
  ∧ timers s1 = clearRef (reconnectTimeoutRef s) (timers s)
  ∧ connectionStatus s1 = connectionStatus s
  ∧ connectedDevice s1 = connectedDevice s
  ∧ isConnected s1 = isConnected s
  ∧ notifications s1 = notifications s
  ∧ listeners s2 = listeners later
  ∧ subscriptionsRef s2 = subscriptionsRef later
  ∧ timers s2 = timers later.
Proof.
  intros s s1 s2. pose proof (Inv_interleaved radio granted stretches) as H.
  fold s in H. clearbody s. inv_fields H.
  destruct (disconnectRelease_store s) as (Hl & Hs & Ht & Hc & Hd & Hi & Hn).
  split_and!; try done.
  - unfold s1. rewrite Hl, Hlis. rewrite filter_cons_True.
    + by rewrite (filter_tracked (subscriptionsRef s) rest).
    + cbn. intros Hin. rewrite Forall_forall in Hsub.
      specialize (Hsub _ Hin). simpl in Hsub. lia.
  - destruct cancel as [u|err]; [|done].
    apply (disconnectSettle_resolved u later).
  - destruct cancel as [u|err]; [|done].
    apply (disconnectSettle_resolved u later).
  - destruct cancel as [u|err]; [|done].
    apply (disconnectSettle_resolved u later).
Qed.

